(** * Weighted grade calculator of [school_app.py]

    A shallow embedding of [calculate_average_v3] and of the period
    aggregation its callers perform ("Year Final" cells of the teacher and
    student gradebooks, and the "YEAR FINAL" metric of the student's progress
    tab), together with the properties stated about them.

    Numbers.  Grades are the [REAL] column [grades.grade]; they are modelled
    as exact rationals in canonical form ([Qc]), so that equality of values
    is Leibniz equality.  Module [Double] repeats the calculator on binary64
    doubles, for what depends on the rounding of sums and quotients.
    Weights, ids and periods are [INTEGER] columns and are modelled as [Z].
    A nullable column is an [option].

    Errors.  The only exception the arithmetic of the code can raise is
    [ZeroDivisionError]; division is therefore modelled as a fallible
    operation and the functions live in a small error monad. *)

From Stdlib Require Import ZArith QArith Qcanon List String Bool Lia Lqa
  Permutation Sorted.
From Stdlib Require PrimFloat Uint63.
Import ListNotations.

Local Open Scope Z_scope.
Local Open Scope Qc_scope.

(** ** Python primitives *)

Module Py.

Inductive result (A : Type) : Type :=
| Ok (a : A)
| ZeroDivisionError.

Arguments Ok {A} a.
Arguments ZeroDivisionError {A}.

Definition bind {A B} (m : result A) (k : A -> result B) : result B :=
  match m with
  | Ok a => k a
  | ZeroDivisionError => ZeroDivisionError
  end.

Definition of_Z (z : Z) : Qc := Q2Qc (inject_Z z).

(** [len(l)] used as a number. *)
Definition len {A} (l : list A) : Qc := of_Z (Z.of_nat (List.length l)).

(** [sum(l)]: left-to-right accumulation starting from [0]. *)
Definition sum (l : list Qc) : Qc := fold_left Qcplus l 0.

(** [x / y], which raises on a zero divisor. *)
Definition div (x y : Qc) : result Qc :=
  if Qc_eq_bool y 0 then ZeroDivisionError else Ok (x / y).

(** Truth value of a list: [if l:] holds when [l] is not empty. *)
Definition truthy {A} (l : list A) : bool :=
  match l with
  | [] => false
  | _ :: _ => true
  end.

(** A list comprehension [[f x for x in l if ...]], the condition and the
    produced value being given together by [f]. *)
Fixpoint comprehension {A B} (f : A -> option B) (l : list A) : list B :=
  match l with
  | [] => []
  | x :: l' =>
      match f x with
      | Some y => y :: comprehension f l'
      | None => comprehension f l'
      end
  end.

(** [for x in l: st = body st x], stopping at the first exception. *)
Fixpoint for_each {S A} (body : S -> A -> result S) (l : list A) (st : S)
  : result S :=
  match l with
  | [] => Ok st
  | x :: l' => bind (body st x) (for_each body l')
  end.

(** A [dict] from strings to nullable numbers.  Insertion order is kept;
    assigning to a key that is present replaces its value in place. *)
Definition dict := list (string * option Qc).

Fixpoint dict_set (d : dict) (k : string) (v : option Qc) : dict :=
  match d with
  | [] => [(k, v)]
  | (k', v') :: d' =>
      if String.eqb k' k then (k', v) :: d'
      else (k', v') :: dict_set d' k v
  end.

Fixpoint dict_get (d : dict) (k : string) : option (option Qc) :=
  match d with
  | [] => None
  | (k', v') :: d' => if String.eqb k' k then Some v' else dict_get d' k
  end.

Definition keys (d : dict) : list string := map fst d.

(** Nearest integer, ties to the even one. *)
Definition round_half_even (q : Q) : Z :=
  let n := Qnum q in
  let d := Zpos (Qden q) in
  let fl := (n / d)%Z in
  let r2 := (2 * (n mod d))%Z in
  if (r2 <? d)%Z then fl
  else if (d <? r2)%Z then (fl + 1)%Z
  else if Z.even fl then fl else (fl + 1)%Z.

(** [round(x, 2)]. *)
Definition round2 (x : Qc) : Qc :=
  Q2Qc (inject_Z (round_half_even (x * of_Z 100)%Qc) / inject_Z 100)%Q.

End Py.

Import Py.

Notation "x <- m ;; k" := (bind m (fun x => k))
  (at level 61, m at next level, right associativity).

(** ** Data model *)

(** A row of the join of [grades] with [assignments]. *)
Record GradeRecord : Type := mkGrade {
  grade : option Qc;
  category_id : option Z;
  period : option Z
}.

(** A row of [grading_categories]. *)
Record GradingCategory : Type := mkCategory {
  id : Z;
  name : string;
  weight : Z
}.

(** [x == z] for a nullable integer [x]. *)
Definition int_eq (x : option Z) (z : Z) : bool :=
  match x with
  | Some y => (y =? z)%Z
  | None => false
  end.

(** ** [calculate_average_v3] *)

(** [[g['grade'] for g in grades if g['grade'] is not None]] *)
Definition valid_grades (grades : list GradeRecord) : list Qc :=
  comprehension (fun g => grade g) grades.

(** [[g['grade'] for g in grades
      if g['category_id'] == cat['id'] and g['grade'] is not None]] *)
Definition c_grades (grades : list GradeRecord) (cat : GradingCategory)
  : list Qc :=
  comprehension
    (fun g => if int_eq (category_id g) (id cat) then grade g else None)
    grades.

(** The variables of the loop: [cat_averages], [total_weight_used] and
    [calculated_score]. *)
Record loop_state : Type := mkState {
  cat_averages : dict;
  total_weight_used : Z;
  calculated_score : Qc
}.

(** The body of [for cat in categories]. *)
Definition loop_body (grades : list GradeRecord) (st : loop_state)
  (cat : GradingCategory) : result loop_state :=
  let cg := c_grades grades cat in
  if truthy cg then
    avg <- div (sum cg) (len cg) ;;
    Ok (mkState (dict_set (cat_averages st) (name cat) (Some avg))
                (total_weight_used st + weight cat)%Z
                (calculated_score st + avg * of_Z (weight cat)))
  else
    Ok (mkState (dict_set (cat_averages st) (name cat) None)
                (total_weight_used st)
                (calculated_score st)).

Definition calculate_average_v3 (grades : list GradeRecord)
  (categories : list GradingCategory) : result (Qc * dict) :=
  if negb (truthy categories) then
    let vg := valid_grades grades in
    if truthy vg then
      m <- div (sum vg) (len vg) ;;
      Ok (m, [])
    else Ok (0, [])
  else
    st <- for_each (loop_body grades) categories (mkState [] 0%Z 0) ;;
    if (total_weight_used st >? 0)%Z then
      final_score <- div (calculated_score st) (of_Z (total_weight_used st)) ;;
      Ok (final_score, cat_averages st)
    else Ok (0, cat_averages st).

(** ** Period aggregation by the callers *)

(** [num_p = 2 if sys == 'semesters' else 3] *)
Definition num_p (sys : string) : nat :=
  if String.eqb sys "semesters" then 2%nat else 3%nat.

(** [range(1, num_p + 1)] *)
Definition periods (sys : string) : list Z :=
  map Z.of_nat (seq 1 (num_p sys)).

(** [[g for g in raw_grades if g['period'] == p]] *)
Definition p_grades (raw_grades : list GradeRecord) (p : Z)
  : list GradeRecord :=
  filter (fun g => int_eq (period g) p) raw_grades.

(** The body of [for p in range(1, num_p + 1)], on the variable [p_avgs]. *)
Definition period_body (raw_grades : list GradeRecord)
  (cats : list GradingCategory) (p_avgs : list Qc) (p : Z)
  : result (list Qc) :=
  let pg := p_grades raw_grades p in
  if truthy pg then
    r <- calculate_average_v3 pg cats ;;
    Ok (p_avgs ++ [fst r])
  else Ok p_avgs.

Definition period_averages (sys : string) (raw_grades : list GradeRecord)
  (cats : list GradingCategory) : result (list Qc) :=
  for_each (period_body raw_grades cats) (periods sys) [].

(** The "Year Final" cell ([sel_p_mode == 0]) of the global gradebook, in
    [teacher_dashboard] and, with the same statements, in
    [student_dashboard]. *)
Definition year_final_cell (sys : string) (raw_grades : list GradeRecord)
  (cats : list GradingCategory) : result Qc :=
  p_avgs <- period_averages sys raw_grades cats ;;
  if truthy p_avgs then
    m <- div (sum p_avgs) (len p_avgs) ;;
    Ok (round2 m)
  else Ok 0.

(** The "YEAR FINAL" metric of the student's progress tab: [year_final] is
    assigned only when some period has grades. *)
Definition progress_year_final (sys : string)
  (raw_grades : list GradeRecord) (cats : list GradingCategory)
  : result (option Qc) :=
  p_summaries <- period_averages sys raw_grades cats ;;
  if truthy p_summaries then
    year_final <- div (sum p_summaries) (len p_summaries) ;;
    Ok (Some year_final)
  else Ok None.

(** ** Notions of the specification *)

(** The arithmetic mean of a list of numbers: their sum over their count. *)
Definition arithmetic_mean (l : list Qc) : Qc :=
  fold_right Qcplus 0 l / of_Z (Z.of_nat (List.length l)).

(** A category's average: the mean of its graded records, or the no-data
    marker when it has none. *)
Definition category_average (grades : list GradeRecord)
  (cat : GradingCategory) : option Qc :=
  match c_grades grades cat with
  | [] => None
  | _ :: _ => Some (arithmetic_mean (c_grades grades cat))
  end.

(** The categories that have at least one matching non-null grade. *)
Definition has_grades (grades : list GradeRecord) (cat : GradingCategory)
  : bool := truthy (c_grades grades cat).

Definition graded (grades : list GradeRecord)
  (cats : list GradingCategory) : list GradingCategory :=
  filter (has_grades grades) cats.

(** Sum of the weights of a list of categories. *)
Definition weight_total (cats : list GradingCategory) : Z :=
  fold_right Z.add 0%Z (map weight cats).

(** Sum over a list of categories of average times weight. *)
Definition weighted_sum (grades : list GradeRecord)
  (cats : list GradingCategory) : Qc :=
  fold_right Qcplus 0
    (map (fun c => arithmetic_mean (c_grades grades c) * of_Z (weight c))
       cats).

(** The mapping the loop builds: each category's name assigned its average,
    in input order. *)
Definition averages_of (grades : list GradeRecord)
  (cats : list GradingCategory) : dict :=
  fold_left (fun d c => dict_set d (name c) (category_average grades c))
    cats [].

(** The final score over a non-empty list of categories: score over weight
    used, both taken over the graded categories only. *)
Definition weighted_final (grades : list GradeRecord)
  (cats : list GradingCategory) : Qc :=
  if (weight_total (graded grades cats) >? 0)%Z then
    weighted_sum grades (graded grades cats)
    / of_Z (weight_total (graded grades cats))
  else 0.

(** The final score in both branches. *)
Definition final_of (grades : list GradeRecord)
  (cats : list GradingCategory) : Qc :=
  match cats with
  | [] =>
      match valid_grades grades with
      | [] => 0
      | _ :: _ => arithmetic_mean (valid_grades grades)
      end
  | _ :: _ => weighted_final grades cats
  end.

(** The per-period finals that enter the year final: the periods that have
    at least one grade record, in order. *)
Definition period_finals (sys : string) (raw_grades : list GradeRecord)
  (cats : list GradingCategory) : list Qc :=
  map (fun p => final_of (p_grades raw_grades p) cats)
    (filter (fun p => truthy (p_grades raw_grades p)) (periods sys)).

(** Decimal literals. *)
Definition dec (n : Z) (d : positive) : Qc := Q2Qc (n # d).

(** ** The loop, without the error monad *)

(** One iteration, once the division is known not to raise. *)
Definition step (grades : list GradeRecord) (st : loop_state)
  (cat : GradingCategory) : loop_state :=
  match category_average grades cat with
  | Some avg =>
      mkState (dict_set (cat_averages st) (name cat) (Some avg))
              (total_weight_used st + weight cat)%Z
              (calculated_score st + avg * of_Z (weight cat))
  | None =>
      mkState (dict_set (cat_averages st) (name cat) None)
              (total_weight_used st)
              (calculated_score st)
  end.

(** ** Shares of a category *)

(** What a category adds to [total_weight_used] and to
    [calculated_score]. *)
Definition weight_share (grades : list GradeRecord) (c : GradingCategory)
  : Z := if has_grades grades c then weight c else 0%Z.

Definition score_share (grades : list GradeRecord) (c : GradingCategory)
  : Qc :=
  if has_grades grades c
  then arithmetic_mean (c_grades grades c) * of_Z (weight c)
  else 0.

(** ** Deciding equality of outcomes *)

Definition value_eqb (a b : option Qc) : bool :=
  match a, b with
  | Some x, Some y => Qc_eq_bool x y
  | None, None => true
  | _, _ => false
  end.

Fixpoint dict_eqb (d d' : dict) : bool :=
  match d, d' with
  | [], [] => true
  | (k, v) :: r, (k', v') :: r' =>
      String.eqb k k' && value_eqb v v' && dict_eqb r r'
  | _, _ => false
  end.

Definition outcome_eqb (r r' : result (Qc * dict)) : bool :=
  match r, r' with
  | Ok (s, d), Ok (s', d') => Qc_eq_bool s s' && dict_eqb d d'
  | ZeroDivisionError, ZeroDivisionError => true
  | _, _ => false
  end.

Definition number_eqb (r r' : result Qc) : bool :=
  match r, r' with
  | Ok s, Ok s' => Qc_eq_bool s s'
  | ZeroDivisionError, ZeroDivisionError => true
  | _, _ => false
  end.

(** ** Scenarios *)

Module Scenario.

Definition Homework : GradingCategory := mkCategory 1 "Homework" 40.
Definition Exams : GradingCategory := mkCategory 2 "Exams" 60.
Definition categories : list GradingCategory := [Homework; Exams].

(** A grade record of period 1. *)
Definition rec (g : Z) (cat : Z) : GradeRecord :=
  mkGrade (Some (of_Z g)) (Some cat) (Some 1%Z).

(** Grades 8 and 6 in Homework and 9 in Exams. *)
Definition full : list GradeRecord := [rec 8 1; rec 6 1; rec 9 2].

(** A single grade 8 in Homework. *)
Definition partial : list GradeRecord := [rec 8 1].

End Scenario.

(** The record used against C5: a grade 8 that belongs to no category. *)
Definition uncategorised : GradeRecord :=
  mkGrade (Some (of_Z 8)) None (Some 1%Z).

(** Malformed weights used in C7: one negative, the sum not 100. *)
Definition malformed : list GradingCategory :=
  [mkCategory 1 "Homework" (-40); mkCategory 2 "Exams" 30].

(** Two categories that bear one name, used against C8 and in C10. *)
Definition Quiz1 : GradingCategory := mkCategory 1 "Quiz" 50.
Definition Quiz2 : GradingCategory := mkCategory 2 "Quiz" 50.

(** Grades 7, 7 and 8 of the first semester, in no category. *)
Definition thirds : list GradeRecord :=
  [mkGrade (Some (of_Z 7)) None (Some 1%Z);
   mkGrade (Some (of_Z 7)) None (Some 1%Z);
   mkGrade (Some (of_Z 8)) None (Some 1%Z)].

(** ** More of the gradebooks *)

(** [x >= y] on numbers. *)
Definition ge (x y : Qc) : bool := Qle_bool y x.

(** The [periods] dict of the global gradebooks, from label to mode, in
    insertion order. *)
Definition period_modes (sys : string) : list (string * Z) :=
  if String.eqb sys "semesters" then
    [("Year Final"%string, 0%Z); ("1st Semester"%string, 1%Z);
     ("2nd Semester"%string, 2%Z)]
  else if String.eqb sys "trimesters" then
    [("Year Final"%string, 0%Z); ("1st Quarter"%string, 1%Z);
     ("2nd Quarter"%string, 2%Z); ("3rd Quarter"%string, 3%Z)]
  else [("Annual Progress"%string, 1%Z)].

(** The cell of a specific period or of the annual progress
    ([sel_p_mode] other than 0): the calculator is called on the records of
    the period whether there are any or not. *)
Definition period_cell (sel_p_mode : Z) (raw_grades : list GradeRecord)
  (cats : list GradingCategory) : result Qc :=
  let pg := p_grades raw_grades sel_p_mode in
  r <- calculate_average_v3 pg cats ;;
  Ok (round2 (fst r)).

(** [cell_val] of the global gradebooks. *)
Definition cell_val (sys : string) (sel_p_mode : Z)
  (raw_grades : list GradeRecord) (cats : list GradingCategory)
  : result Qc :=
  if (sel_p_mode =? 0)%Z then year_final_cell sys raw_grades cats
  else period_cell sel_p_mode raw_grades cats.

(** [passing = sel_c.get('passing_grade', 6.0) or 6.0] of the global
    gradebooks; [None] stands for a NULL column. *)
Definition gradebook_passing (passing_grade : option Qc) : Qc :=
  match passing_grade with
  | Some x => if Qc_eq_bool x 0 then of_Z 6 else x
  | None => of_Z 6
  end.

(** [status] of the student's summary table. *)
Definition status (cell : Qc) (passing : Qc) : string :=
  if ge cell passing then "✅ PASS"%string else "❌ FAIL"%string.

(** [label] of the "YEAR FINAL" metric of the progress tab, where
    [passing = sel_c.get('passing_grade', 6.0)] is compared as it is: the
    result is [None] when the comparison with a NULL passing grade raises
    [TypeError]. *)
Definition progress_label (year_final : Qc) (passing : option Qc)
  : option string :=
  match passing with
  | Some p =>
      Some (if ge year_final p then "PASSED"%string else "FAILED"%string)
  | None => None
  end.

(** The annual branch of the progress tab ([eval_sys == 'annual']): the
    calculator on all the records of the subject. *)
Definition progress_annual (sub_raw_grades : list GradeRecord)
  (sub_cats : list GradingCategory) : result (Qc * dict) :=
  calculate_average_v3 sub_raw_grades sub_cats.

(** ** The default period of the assignment editor *)

(** [max(0, min(hi, a['period'] - 1))] *)
Definition clamp_index (hi : Z) (period : Z) : nat :=
  Z.to_nat (Z.max 0 (Z.min hi (period - 1))).

(** The period preselected by the edit form of an assignment: the option
    at the clamped index for semesters and trimesters, and 1 otherwise.
    [None] is the [TypeError] of [a['period'] - 1] on a NULL period. *)
Definition default_period (sys_eval : string) (period : option Z)
  : option Z :=
  if String.eqb sys_eval "semesters" then
    match period with
    | Some p => nth_error [1%Z; 2%Z] (clamp_index 1 p)
    | None => None
    end
  else if String.eqb sys_eval "trimesters" then
    match period with
    | Some p => nth_error [1%Z; 2%Z; 3%Z] (clamp_index 2 p)
    | None => None
    end
  else Some 1%Z.

(** ** Storage used by group *)

(** A [dict] from strings to integers, in insertion order. *)
Definition counters := list (string * Z).

Fixpoint counters_set (d : counters) (k : string) (v : Z) : counters :=
  match d with
  | [] => [(k, v)]
  | (k', v') :: d' =>
      if String.eqb k' k then (k', v) :: d'
      else (k', v') :: counters_set d' k v
  end.

(** [d.get(k, default)] *)
Fixpoint counters_get (d : counters) (k : string) (default : Z) : Z :=
  match d with
  | [] => default
  | (k', v') :: d' =>
      if String.eqb k' k then v' else counters_get d' k default
  end.

(** A row of the two [GROUP BY u.group_name] queries. *)
Record UsageRow : Type := mkUsage {
  group_name : option string;
  size : option Z
}.

(** [row['group_name'] or "No Group"]: NULL and the empty string are
    falsy. *)
Definition group_or_default (row : UsageRow) : string :=
  match group_name row with
  | Some s => if String.eqb s "" then "No Group"%string else s
  | None => "No Group"%string
  end.

(** [row['size'] or 0] *)
Definition size_or_zero (row : UsageRow) : Z :=
  match size row with
  | Some z => if (z =? 0)%Z then 0%Z else z
  | None => 0%Z
  end.

(** The body of both loops:
    [groups[g] = groups.get(g, 0) + (row['size'] or 0)]. *)
Definition usage_body (groups : counters) (row : UsageRow) : counters :=
  let g := group_or_default row in
  counters_set groups g (counters_get groups g 0 + size_or_zero row)%Z.

(** The aggregation of [get_space_usage_by_group] over the rows of its two
    queries. *)
Definition get_space_usage_by_group (sub_usage mat_usage : list UsageRow)
  : counters :=
  fold_left usage_body mat_usage (fold_left usage_body sub_usage []).

(** Sum of the sizes of the rows filed under a group. *)
Definition group_size (g : string) (rows : list UsageRow) : Z :=
  fold_right Z.add 0%Z
    (map size_or_zero
       (filter (fun row => String.eqb (group_or_default row) g) rows)).

(** Sum of the values of a report, and of the sizes of a list of rows. *)
Definition counters_total (d : counters) : Z :=
  fold_right Z.add 0%Z (map snd d).

Definition size_total (rows : list UsageRow) : Z :=
  fold_right Z.add 0%Z (map size_or_zero rows).

(** ** Rows of the class gradebook *)

(** A cell of a gradebook row: a text or a number. *)
Inductive Cell : Type :=
| Text (s : string)
| Number (q : Qc).

(** A row of the dataframe: a [dict] from column names to cells. *)
Definition Row := list (string * Cell).

Fixpoint row_set (row : Row) (k : string) (v : Cell) : Row :=
  match row with
  | [] => [(k, v)]
  | (k', v') :: row' =>
      if String.eqb k' k then (k', v) :: row'
      else (k', v') :: row_set row' k v
  end.

(** The body of [for c_name, c_avg in cat_avgs.items()]. *)
Definition average_column (row : Row) (item : string * option Qc) : Row :=
  let '(c_name, c_avg) := item in
  row_set row ("Avg " ++ c_name)
    (match c_avg with
     | Some a => Number (round2 a)
     | None => Text "-"
     end).

(** The row of one student in the class gradebook of a subject. *)
Definition gradebook_row (full_name : string) (s_raw : list GradeRecord)
  (cats : list GradingCategory) : result Row :=
  let row := [("Student"%string, Text full_name)] in
  r <- calculate_average_v3 s_raw cats ;;
  let row := fold_left average_column (snd r) row in
  Ok (row_set row "Final Progress" (Number (round2 (fst r)))).

(** ** The billing overview *)

(** A row of [users], with the columns the overview reads. *)
Record User : Type := mkUser {
  user_id : Z;
  user_group : option string
}.

(** Truth value of a nullable string: NULL and the empty string are
    falsy. *)
Definition truthy_name (n : option string) : bool :=
  match n with
  | Some s => negb (String.eqb s "")
  | None => false
  end.

(** [sorted(l)] on strings, by insertion; strings are compared character
    by character, as their UTF-8 bytes are. *)
Fixpoint insert_sorted (s : string) (l : list string) : list string :=
  match l with
  | [] => [s]
  | x :: l' => if String.leb s x then s :: l else x :: insert_sorted s l'
  end.

Definition sorted (l : list string) : list string :=
  fold_right insert_sorted [] l.

(** [sorted(list(set([u['group_name'] for u in all_users
                      if u['group_name']])))] *)
Definition billing_groups (all_users : list User) : list string :=
  sorted
    (nodup string_dec
       (comprehension
          (fun u => if truthy_name (user_group u) then user_group u
                    else None)
          all_users)).

(** [sum(l)] on integers. *)
Definition int_sum (l : list Z) : Z := fold_left Z.add l 0%Z.

(** [v['group_name'] == g] *)
Definition in_group (g : string) (v : User) : bool :=
  match user_group v with
  | Some s => String.eqb s g
  | None => false
  end.

(** [count = sum(1 for v in all_users if v['group_name'] == g)] *)
Definition user_count (all_users : list User) (g : string) : Z :=
  int_sum
    (comprehension (fun v => if in_group g v then Some 1%Z else None)
       all_users).

(** The column a mapping entry gives: its name prefixed, its average
    rounded, a dash for the no-data marker. *)
Definition column_of (item : string * option Qc) : string * Cell :=
  (("Avg " ++ fst item)%string,
   match snd item with
   | Some a => Number (round2 a)
   | None => Text "-"
   end).

(** The order of strings, as a relation. *)
Definition string_le (a b : string) : Prop := String.leb a b = true.

(** ** The specification's reading of the input *)

(** "whose grade is non-null": the grades of the records that have one, in
    the order of the records. *)
Fixpoint non_null_grades (records : list GradeRecord) : list Qc :=
  match records with
  | [] => []
  | r :: rest =>
      match grade r with
      | Some x => x :: non_null_grades rest
      | None => non_null_grades rest
      end
  end.

(** A record has a grade when its grade is not null. *)
Definition has_grade (r : GradeRecord) : bool :=
  match grade r with
  | Some _ => true
  | None => false
  end.

(** "whose category_id equals c.id": the records of a category, a record
    without category belonging to none. *)
Definition is_of_category (c : GradingCategory) (r : GradeRecord) : bool :=
  match category_id r with
  | Some i => Z.eqb i (id c)
  | None => false
  end.

Definition records_of_category (c : GradingCategory)
  (records : list GradeRecord) : list GradeRecord :=
  filter (is_of_category c) records.

(** "the subset of grades whose category_id equals c.id and whose grade is
    non-null", as the list of the grades. *)
Definition category_subset (c : GradingCategory)
  (grades : list GradeRecord) : list Qc :=
  non_null_grades (records_of_category c grades).

(** A category has data when some record of the input is of the category
    and has a grade. *)
Definition has_data (grades : list GradeRecord) (c : GradingCategory)
  : Prop :=
  exists r x,
    In r grades /\ category_id r = Some (id c) /\ grade r = Some x.

(** "its arithmetic mean avg_c", or the no-data marker for an empty
    subset. *)
Definition subset_average (c : GradingCategory)
  (grades : list GradeRecord) : option Qc :=
  match category_subset c grades with
  | [] => None
  | _ :: _ => Some (arithmetic_mean (category_subset c grades))
  end.

(** The categories that count: those whose subset is not empty. *)
Definition counted (grades : list GradeRecord)
  (cats : list GradingCategory) : list GradingCategory :=
  filter (fun c => truthy (category_subset c grades)) cats.

(** "score": the sum over a list of categories of average times weight. *)
Definition subset_score (grades : list GradeRecord)
  (cats : list GradingCategory) : Qc :=
  fold_right Qcplus 0
    (map (fun c => arithmetic_mean (category_subset c grades)
                   * of_Z (weight c)) cats).

(** "whose period equals p": the grade records of a period, a record
    without period belonging to none. *)
Definition is_of_period (p : Z) (r : GradeRecord) : bool :=
  match period r with
  | Some q => Z.eqb q p
  | None => false
  end.

Definition records_of_period (p : Z) (records : list GradeRecord)
  : list GradeRecord :=
  filter (is_of_period p) records.

(** The periods of a year: two semesters, or else three trimesters. *)
Definition year_periods (sys : string) : list Z :=
  if String.eqb sys "semesters" then [1%Z; 2%Z] else [1%Z; 2%Z; 3%Z].

(** The final score [calculate_average_v3] returns. *)
Definition returned_final (grades : list GradeRecord)
  (cats : list GradingCategory) : Qc :=
  match calculate_average_v3 grades cats with
  | Ok (final_score, _) => final_score
  | ZeroDivisionError => 0
  end.

(** "the per-period final scores ... skipping periods with zero grade
    records": one final per period that has a record, in order. *)
Definition year_finals (sys : string) (raw : list GradeRecord)
  (cats : list GradingCategory) : list Qc :=
  map (fun p => returned_final (records_of_period p raw) cats)
    (filter (fun p => truthy (records_of_period p raw)) (year_periods sys)).

(** Records used in the scenarios: a null grade in a category, a graded
    record of a period, and a graded record without period. *)
Definition null_in (cat : Z) : GradeRecord :=
  mkGrade None (Some cat) (Some 1%Z).

Definition in_period (g : Z) (p : Z) : GradeRecord :=
  mkGrade (Some (of_Z g)) None (Some p).

Definition without_period (g : Z) : GradeRecord :=
  mkGrade (Some (of_Z g)) None None.

(** ** The calculator on binary64 doubles *)

(** The same function with the grades as the doubles they are: sums,
    products and quotients round as Python's do.  Integers stay integers
    and are converted where Python converts them. *)
Module Double.

(** An [int] as a [float]. *)
Definition of_int (z : Z) : PrimFloat.float :=
  match z with
  | Z0 => PrimFloat.zero
  | Zpos _ => PrimFloat.of_uint63 (Uint63.of_Z z)
  | Zneg p => PrimFloat.opp (PrimFloat.of_uint63 (Uint63.of_Z (Zpos p)))
  end.

(** [sum(l)]: left-to-right accumulation starting from the integer [0]. *)
Definition sum (l : list PrimFloat.float) : PrimFloat.float :=
  fold_left PrimFloat.add l (of_int 0).

(** [x / n] for a float [x] and an integer [n], which raises on [0]. *)
Definition div (x : PrimFloat.float) (n : Z) : result PrimFloat.float :=
  if (n =? 0)%Z then ZeroDivisionError
  else Ok (PrimFloat.div x (of_int n)).

(** [len(l)] *)
Definition len {A} (l : list A) : Z := Z.of_nat (List.length l).

Record GradeRecord : Type := mkGrade {
  grade : option PrimFloat.float;
  category_id : option Z;
  period : option Z
}.

Definition dict := list (string * option PrimFloat.float).

Fixpoint dict_set (d : dict) (k : string) (v : option PrimFloat.float)
  : dict :=
  match d with
  | [] => [(k, v)]
  | (k', v') :: d' =>
      if String.eqb k' k then (k', v) :: d'
      else (k', v') :: dict_set d' k v
  end.

Definition valid_grades (grades : list GradeRecord)
  : list PrimFloat.float :=
  comprehension (fun g => grade g) grades.

Definition c_grades (grades : list GradeRecord) (cat : GradingCategory)
  : list PrimFloat.float :=
  comprehension
    (fun g => if int_eq (category_id g) (id cat) then grade g else None)
    grades.

Record loop_state : Type := mkState {
  cat_averages : dict;
  total_weight_used : Z;
  calculated_score : PrimFloat.float
}.

Definition loop_body (grades : list GradeRecord) (st : loop_state)
  (cat : GradingCategory) : result loop_state :=
  let cg := c_grades grades cat in
  if truthy cg then
    avg <- div (sum cg) (len cg) ;;
    Ok (mkState (dict_set (cat_averages st) (name cat) (Some avg))
                (total_weight_used st + weight cat)%Z
                (PrimFloat.add (calculated_score st)
                   (PrimFloat.mul avg (of_int (weight cat)))))
  else
    Ok (mkState (dict_set (cat_averages st) (name cat) None)
                (total_weight_used st)
                (calculated_score st)).

Definition calculate_average_v3 (grades : list GradeRecord)
  (categories : list GradingCategory)
  : result (PrimFloat.float * dict) :=
  if negb (truthy categories) then
    let vg := valid_grades grades in
    if truthy vg then
      m <- div (sum vg) (len vg) ;;
      Ok (m, [])
    else Ok (of_int 0, [])
  else
    st <- for_each (loop_body grades) categories
            (mkState [] 0%Z (of_int 0)) ;;
    if (total_weight_used st >? 0)%Z then
      final_score <- div (calculated_score st) (total_weight_used st) ;;
      Ok (final_score, cat_averages st)
    else Ok (of_int 0, cat_averages st).

(** The average of a category, or the no-data marker. *)
Definition category_average (grades : list GradeRecord)
  (cat : GradingCategory) : option PrimFloat.float :=
  match c_grades grades cat with
  | [] => None
  | _ :: _ =>
      Some (PrimFloat.div (sum (c_grades grades cat))
              (of_int (len (c_grades grades cat))))
  end.

(** The final score and the mapping of an outcome. *)
Definition score_of (r : result (PrimFloat.float * dict))
  : PrimFloat.float :=
  match r with
  | Ok (s, _) => s
  | ZeroDivisionError => of_int 0
  end.

Definition mapping_of (r : result (PrimFloat.float * dict)) : dict :=
  match r with
  | Ok (_, d) => d
  | ZeroDivisionError => []
  end.

(** A record whose grade is half of an integer, an exact double. *)
Definition halves (twice : Z) (cat : Z) : GradeRecord :=
  mkGrade (Some (PrimFloat.div (of_int twice) (of_int 2))) (Some cat)
    (Some 1%Z).

(** Three categories with distinct names, and grades 9.5 in the first, 7,
    7 and 9 in the second, 5.5, 7.5 and 10 in the third. *)
Definition A : GradingCategory := mkCategory 1 "A" 25.
Definition B : GradingCategory := mkCategory 2 "B" 35.
Definition C : GradingCategory := mkCategory 3 "C" 40.

Definition grades_ABC : list GradeRecord :=
  [halves 19 1; halves 14 2; halves 14 2; halves 18 2;
   halves 11 3; halves 15 3; halves 20 3].

End Double.

(** ** Arithmetic facts *)

Lemma of_Z_0 : of_Z 0 = 0.
Proof. apply Qc_is_canon. reflexivity. Qed.

Lemma of_Z_plus (a b : Z) : of_Z (a + b) = of_Z a + of_Z b.
Proof.
  apply Qc_is_canon. unfold of_Z, Qcplus. cbn [this Q2Qc].
  rewrite !Qred_correct, inject_Z_plus. reflexivity.
Qed.

Lemma of_Z_le (a b : Z) : (a <= b)%Z -> of_Z a <= of_Z b.
Proof.
  intros H. unfold Qcle, of_Z. cbn [this Q2Qc].
  rewrite !Qred_correct. now rewrite <- Zle_Qle.
Qed.

Lemma of_Z_lt (a b : Z) : (a < b)%Z -> of_Z a < of_Z b.
Proof.
  intros H. unfold Qclt, of_Z. cbn [this Q2Qc].
  rewrite !Qred_correct. now rewrite <- Zlt_Qlt.
Qed.

Lemma of_Z_pos_neq (z : Z) : (0 < z)%Z -> of_Z z <> 0.
Proof.
  intros H E. apply of_Z_lt in H. rewrite of_Z_0, E in H.
  revert H. apply Qcle_not_lt, Qcle_refl.
Qed.

Lemma of_Z_1 : of_Z 1 = 1.
Proof. apply Qc_is_canon. reflexivity. Qed.

Lemma len_cons {A} (x : A) (l : list A) : len (x :: l) = 1 + len l.
Proof.
  unfold len. cbn [List.length]. rewrite Nat2Z.inj_succ, <- Z.add_1_l.
  now rewrite of_Z_plus, of_Z_1.
Qed.

Lemma len_pos {A} (l : list A) : truthy l = true -> 0 < len l.
Proof.
  destruct l as [|x l]; [discriminate|]. intros _.
  unfold len. rewrite <- of_Z_0. apply of_Z_lt. cbn [List.length]. lia.
Qed.

Lemma len_neq_0 {A} (l : list A) : truthy l = true -> len l <> 0.
Proof.
  intros H E. apply len_pos in H. rewrite E in H.
  revert H. apply Qcle_not_lt, Qcle_refl.
Qed.

Lemma div_ok (x y : Qc) : y <> 0 -> div x y = Ok (x / y).
Proof.
  intros H. unfold div. destruct (Qc_eq_bool y 0) eqn:E; [|reflexivity].
  apply Qc_eq_bool_correct in E. contradiction.
Qed.

Lemma sum_from (l : list Qc) (a : Qc) :
  fold_left Qcplus l a = a + fold_right Qcplus 0 l.
Proof.
  revert a. induction l as [|x l IH]; intros a; cbn.
  - now rewrite Qcplus_0_r.
  - rewrite IH. now rewrite Qcplus_assoc.
Qed.

Lemma sum_fold_right (l : list Qc) : sum l = fold_right Qcplus 0 l.
Proof. unfold sum. rewrite sum_from. apply Qcplus_0_l. Qed.

Lemma mean_eq (l : list Qc) : sum l / len l = arithmetic_mean l.
Proof. unfold arithmetic_mean, len. now rewrite sum_fold_right. Qed.

Lemma div_mean (l : list Qc) :
  truthy l = true -> div (sum l) (len l) = Ok (arithmetic_mean l).
Proof.
  intros H. rewrite div_ok by now apply len_neq_0. now rewrite mean_eq.
Qed.

(** ** The loop over the categories *)

Lemma loop_body_step grades st cat :
  loop_body grades st cat = Ok (step grades st cat).
Proof.
  unfold loop_body, step, category_average.
  destruct (c_grades grades cat) as [|x l] eqn:E; [reflexivity|].
  cbn [truthy]. rewrite div_mean by reflexivity. reflexivity.
Qed.

Lemma for_each_fold {S A} (body : S -> A -> result S) (f : S -> A -> S)
  (l : list A) :
  (forall st x, In x l -> body st x = Ok (f st x)) ->
  forall st, for_each body l st = Ok (fold_left f l st).
Proof.
  induction l as [|x l IH]; intros H st; cbn; [reflexivity|].
  rewrite H by now left. cbn. apply IH. intros st' y Hy. apply H. now right.
Qed.

Lemma for_each_ext {S A} (body body' : S -> A -> result S) (l : list A) :
  (forall st x, In x l -> body st x = body' st x) ->
  forall st, for_each body l st = for_each body' l st.
Proof.
  induction l as [|x l IH]; intros H st; cbn; [reflexivity|].
  rewrite H by now left. destruct (body' st x); cbn; [|reflexivity].
  apply IH. intros st' y Hy. apply H. now right.
Qed.

Lemma graded_cons grades c cats :
  graded grades (c :: cats) =
  if has_grades grades c then c :: graded grades cats
  else graded grades cats.
Proof. reflexivity. Qed.

Lemma has_grades_average grades c :
  category_average grades c =
  if has_grades grades c then Some (arithmetic_mean (c_grades grades c))
  else None.
Proof.
  unfold category_average, has_grades.
  now destruct (c_grades grades c).
Qed.

Lemma loop_fold grades cats : forall st,
  fold_left (step grades) cats st =
  mkState
    (fold_left (fun d c => dict_set d (name c) (category_average grades c))
       cats (cat_averages st))
    (total_weight_used st + weight_total (graded grades cats))%Z
    (calculated_score st + weighted_sum grades (graded grades cats)).
Proof.
  induction cats as [|c cats IH]; intros st.
  - cbn. rewrite Z.add_0_r, Qcplus_0_r. now destruct st.
  - cbn [fold_left]. rewrite IH, graded_cons. unfold step.
    rewrite has_grades_average.
    destruct (has_grades grades c); cbn [cat_averages total_weight_used
      calculated_score]; f_equal.
    + unfold weight_total. cbn. lia.
    + unfold weighted_sum. cbn. now rewrite Qcplus_assoc.
Qed.

(** What [calculate_average_v3] returns, on every input. *)
Lemma calculate_average_v3_eq grades cats :
  calculate_average_v3 grades cats =
  Ok (final_of grades cats, averages_of grades cats).
Proof.
  unfold calculate_average_v3. destruct cats as [|c cats].
  - cbn [truthy negb final_of averages_of fold_left].
    destruct (valid_grades grades) as [|x l] eqn:E; [reflexivity|].
    cbn [truthy]. rewrite div_mean by reflexivity. reflexivity.
  - cbn [truthy negb].
    rewrite (for_each_fold _ (step grades))
      by (intros; apply loop_body_step).
    cbn [bind]. rewrite loop_fold.
    cbn [cat_averages total_weight_used calculated_score].
    rewrite Z.add_0_l, Qcplus_0_l.
    unfold final_of, weighted_final, averages_of.
    destruct (weight_total (graded grades (c :: cats)) >? 0)%Z eqn:W;
      [|reflexivity].
    rewrite div_ok; [reflexivity|].
    apply of_Z_pos_neq. now apply Z.gtb_lt.
Qed.

(** ** The mapping *)

Lemma dict_get_set_eq d k v : dict_get (dict_set d k v) k = Some v.
Proof.
  induction d as [|[k' v'] d IH]; cbn.
  - now rewrite String.eqb_refl.
  - destruct (String.eqb k' k) eqn:E; cbn; now rewrite E.
Qed.

Lemma dict_get_set_neq d k k' v :
  k <> k' -> dict_get (dict_set d k v) k' = dict_get d k'.
Proof.
  intros N. induction d as [|[k0 v0] d IH]; cbn.
  - destruct (String.eqb k k') eqn:E; [|reflexivity].
    apply String.eqb_eq in E. contradiction.
  - destruct (String.eqb k0 k) eqn:E; cbn.
    + apply String.eqb_eq in E. subst k0.
      destruct (String.eqb k k') eqn:E'; [|reflexivity].
      apply String.eqb_eq in E'. contradiction.
    + now rewrite IH.
Qed.

Lemma keys_set_in d k v : In k (keys d) -> keys (dict_set d k v) = keys d.
Proof.
  unfold keys. induction d as [|[k0 v0] d IH]; cbn; [tauto|].
  intros [->|H].
  - now rewrite String.eqb_refl.
  - destruct (String.eqb k0 k); cbn; [reflexivity|]. now rewrite IH.
Qed.

Lemma keys_set_notin d k v :
  ~ In k (keys d) -> keys (dict_set d k v) = keys d ++ [k].
Proof.
  unfold keys. induction d as [|[k0 v0] d IH]; cbn; [reflexivity|].
  intros H. destruct (String.eqb k0 k) eqn:E.
  - apply String.eqb_eq in E. tauto.
  - cbn. rewrite IH by tauto. reflexivity.
Qed.

Lemma set_notin d k v :
  ~ In k (keys d) -> dict_set d k v = d ++ [(k, v)].
Proof.
  unfold keys. induction d as [|[k0 v0] d IH]; cbn; [reflexivity|].
  intros H. destruct (String.eqb k0 k) eqn:E.
  - apply String.eqb_eq in E. tauto.
  - rewrite IH by tauto. reflexivity.
Qed.

Lemma keys_set_nodup d k v : NoDup (keys d) -> NoDup (keys (dict_set d k v)).
Proof.
  intros H. destruct (in_dec string_dec k (keys d)) as [I|I].
  - now rewrite keys_set_in.
  - rewrite keys_set_notin by assumption.
    apply NoDup_app; [assumption|repeat constructor; cbn; tauto|].
    intros x Hx [<-|[]]. contradiction.
Qed.

Lemma dict_get_set d k k' v :
  dict_get (dict_set d k v) k' =
  if String.eqb k k' then Some v else dict_get d k'.
Proof.
  destruct (String.eqb k k') eqn:E.
  - apply String.eqb_eq in E. subst k'. apply dict_get_set_eq.
  - apply String.eqb_neq in E. now apply dict_get_set_neq.
Qed.

Lemma dict_get_In d k v : dict_get d k = Some v -> In (k, v) d.
Proof.
  induction d as [|[k0 v0] d IH]; cbn; [discriminate|].
  destruct (String.eqb k0 k) eqn:E.
  - apply String.eqb_eq in E. intros [= ->]. left. now subst.
  - intros H. right. now apply IH.
Qed.

Lemma dict_set_In d k v n x :
  In (n, x) (dict_set d k v) -> In (n, x) d \/ (n = k /\ x = v).
Proof.
  induction d as [|[k0 v0] d IH]; cbn.
  - intros [[= <- <-]|[]]. now right.
  - destruct (String.eqb k0 k) eqn:E; cbn.
    + apply String.eqb_eq in E. subst k0.
      intros [[= <- <-]|H]; [now right|left; now right].
    + intros [H|H]; [left; now left|].
      destruct (IH H) as [H'|H']; [left; now right|now right].
Qed.

Lemma averages_snoc grades cats c :
  averages_of grades (cats ++ [c]) =
  dict_set (averages_of grades cats) (name c) (category_average grades c).
Proof. unfold averages_of. now rewrite fold_left_app. Qed.

(** The entry of a name is the average of the last category that bears it. *)
Lemma averages_get grades cats n :
  dict_get (averages_of grades cats) n =
  option_map (category_average grades)
    (find (fun c => String.eqb (name c) n) (rev cats)).
Proof.
  induction cats as [|c cats IH] using rev_ind; [reflexivity|].
  rewrite averages_snoc, dict_get_set, rev_app_distr. cbn.
  destruct (String.eqb (name c) n); [reflexivity|apply IH].
Qed.

Lemma averages_In grades cats n x :
  In (n, x) (averages_of grades cats) ->
  exists c, In c cats /\ name c = n /\ category_average grades c = x.
Proof.
  induction cats as [|c cats IH] using rev_ind; [intros []|].
  rewrite averages_snoc. intros H.
  apply dict_set_In in H. destruct H as [H|[-> ->]].
  - destruct (IH H) as (c' & I & E). exists c'. split; [|exact E].
    apply in_or_app. now left.
  - exists c. split; [|now split]. apply in_or_app. right. now left.
Qed.

Lemma averages_nodup grades cats : NoDup (keys (averages_of grades cats)).
Proof.
  induction cats as [|c cats IH] using rev_ind; [constructor|].
  rewrite averages_snoc. now apply keys_set_nodup.
Qed.

Lemma averages_keys grades cats n :
  In n (keys (averages_of grades cats)) <-> In n (map name cats).
Proof.
  induction cats as [|c cats IH] using rev_ind; [reflexivity|].
  rewrite averages_snoc, map_app, in_app_iff. cbn [map In].
  destruct (in_dec string_dec (name c) (keys (averages_of grades cats)))
    as [I|I].
  - rewrite keys_set_in by assumption. rewrite IH. split; [tauto|].
    intros [H|[<-|[]]]; [assumption|now apply IH].
  - rewrite keys_set_notin by assumption. rewrite in_app_iff, IH.
    cbn [In]. tauto.
Qed.

(** With pairwise distinct names the mapping lists the categories in input
    order. *)
Lemma averages_distinct grades cats :
  NoDup (map name cats) ->
  averages_of grades cats =
  map (fun c => (name c, category_average grades c)) cats.
Proof.
  induction cats as [|c cats IH] using rev_ind; [reflexivity|].
  rewrite map_app. cbn [map]. intros N.
  apply NoDup_remove in N. rewrite app_nil_r in N. destruct N as [N1 N2].
  rewrite averages_snoc, set_notin.
  - rewrite IH by assumption. now rewrite map_app.
  - now rewrite averages_keys.
Qed.

(** ** Invariance under reordering *)

Lemma graded_perm grades cats cats' :
  Permutation cats cats' ->
  Permutation (graded grades cats) (graded grades cats').
Proof.
  induction 1 as [|c l l' P IH|c c' l|l l' l'' P1 IH1 P2 IH2].
  - constructor.
  - rewrite !graded_cons. destruct (has_grades grades c); auto.
  - rewrite !graded_cons.
    destruct (has_grades grades c), (has_grades grades c');
      auto using Permutation_refl, perm_swap.
  - eauto using Permutation_trans.
Qed.

Lemma weight_total_perm cats cats' :
  Permutation cats cats' -> weight_total cats = weight_total cats'.
Proof.
  unfold weight_total.
  induction 1 as [|c l l' P IH|c c' l|l l' l'' P1 IH1 P2 IH2]; cbn;
    try lia.
Qed.

Lemma weighted_sum_perm grades cats cats' :
  Permutation cats cats' ->
  weighted_sum grades cats = weighted_sum grades cats'.
Proof.
  unfold weighted_sum.
  induction 1 as [|c l l' P IH|c c' l|l l' l'' P1 IH1 P2 IH2]; cbn.
  - reflexivity.
  - now rewrite IH.
  - rewrite !Qcplus_assoc. f_equal. apply Qcplus_comm.
  - now rewrite IH1.
Qed.

Lemma weighted_final_perm grades cats cats' :
  Permutation cats cats' ->
  weighted_final grades cats = weighted_final grades cats'.
Proof.
  intros P. unfold weighted_final.
  rewrite (weight_total_perm _ _ (graded_perm grades _ _ P)).
  now rewrite (weighted_sum_perm grades _ _ (graded_perm grades _ _ P)).
Qed.

Lemma final_of_perm grades cats cats' :
  Permutation cats cats' -> final_of grades cats = final_of grades cats'.
Proof.
  intros P. destruct cats as [|c cats]; destruct cats' as [|c' cats'].
  - reflexivity.
  - now apply Permutation_nil in P.
  - apply Permutation_sym in P. now apply Permutation_nil in P.
  - unfold final_of. now apply weighted_final_perm.
Qed.

(** ** Deciding equality of outcomes: correctness *)

Lemma value_eqb_eq a b : value_eqb a b = true -> a = b.
Proof.
  destruct a, b; cbn; try discriminate; [|reflexivity].
  intros H. f_equal. now apply Qc_eq_bool_correct.
Qed.

Lemma dict_eqb_eq d : forall d', dict_eqb d d' = true -> d = d'.
Proof.
  induction d as [|[k v] d IH]; intros [|[k' v'] d']; cbn;
    try discriminate; [reflexivity|].
  intros H. apply andb_prop in H. destruct H as [H H3].
  apply andb_prop in H. destruct H as [H1 H2].
  apply String.eqb_eq in H1. apply value_eqb_eq in H2. apply IH in H3.
  now subst.
Qed.

Lemma outcome_eqb_eq r r' : outcome_eqb r r' = true -> r = r'.
Proof.
  destruct r as [[s d]|], r' as [[s' d']|]; cbn; try discriminate;
    [|reflexivity].
  intros H. apply andb_prop in H. destruct H as [H1 H2].
  apply Qc_eq_bool_correct in H1. apply dict_eqb_eq in H2. now subst.
Qed.

Lemma number_eqb_eq r r' : number_eqb r r' = true -> r = r'.
Proof.
  destruct r as [s|], r' as [s'|]; cbn; try discriminate; [|reflexivity].
  intros H. apply Qc_eq_bool_correct in H. now subst.
Qed.

Ltac by_evaluation :=
  first [apply outcome_eqb_eq | apply number_eqb_eq | apply dict_eqb_eq
        | apply value_eqb_eq | apply Qc_eq_bool_correct];
  vm_compute; reflexivity.

(** ** Properties of [calculate_average_v3] *)

Lemma graded_all grades cats :
  (forall c, In c cats -> c_grades grades c <> []) ->
  graded grades cats = cats.
Proof.
  induction cats as [|c cats IH]; intros H; [reflexivity|].
  rewrite graded_cons. unfold has_grades.
  destruct (c_grades grades c) eqn:E.
  - exfalso. apply (H c); [now left|exact E].
  - cbn. f_equal. apply IH. intros c' I. apply H. now right.
Qed.

Lemma graded_none grades cats :
  (forall c, In c cats -> c_grades grades c = []) ->
  graded grades cats = [].
Proof.
  induction cats as [|c cats IH]; intros H; [reflexivity|].
  rewrite graded_cons. unfold has_grades. rewrite (H c) by now left.
  cbn. apply IH. intros c' I. apply H. now right.
Qed.

Lemma nonempty_eq (cats : list GradingCategory) grades :
  cats <> [] -> final_of grades cats = weighted_final grades cats.
Proof. destruct cats; [congruence|reflexivity]. Qed.

Lemma find_named (cats : list GradingCategory) (c : GradingCategory) :
  In c cats ->
  exists c', In c' cats /\ name c' = name c
    /\ find (fun c0 => String.eqb (name c0) (name c)) (rev cats) = Some c'.
Proof.
  intros I. destruct (find _ (rev cats)) as [c'|] eqn:F.
  - apply find_some in F. destruct F as [I' E'].
    apply String.eqb_eq in E'. apply in_rev in I'. now exists c'.
  - exfalso. apply in_rev in I. pose proof (find_none _ _ F c I) as X.
    cbn in X. rewrite String.eqb_refl in X. discriminate.
Qed.

(** C4. When no category of a non-empty list has a matching non-null grade
    the final score is 0 and every category's name is mapped to the no-data
    marker, which is then the only value of the mapping; nothing is
    raised. *)
Theorem C4_no_graded_category (grades : list GradeRecord)
  (cats : list GradingCategory) :
  cats <> [] ->
  (forall c, In c cats -> c_grades grades c = []) ->
  exists d,
    calculate_average_v3 grades cats = Ok (0, d)
    /\ (forall c, In c cats -> dict_get d (name c) = Some None)
    /\ (forall n v, In (n, v) d -> v = None).
Proof.
  intros N H. exists (averages_of grades cats).
  rewrite calculate_average_v3_eq, nonempty_eq by assumption.
  unfold weighted_final. rewrite (graded_none _ _ H). cbn.
  split; [reflexivity|]. split.
  - intros c I. rewrite averages_get.
    destruct (find_named cats c I) as (c' & I' & _ & ->).
    cbn. unfold category_average. now rewrite (H c' I').
  - intros n v I. apply averages_In in I. destruct I as (c & I & _ & <-).
    unfold category_average. now rewrite (H c I).
Qed.

Lemma C4_witness :
  exists d,
    calculate_average_v3 [Scenario.rec 8 7] Scenario.categories = Ok (0, d)
    /\ (forall c, In c Scenario.categories ->
          dict_get d (name c) = Some None)
    /\ (forall n v, In (n, v) d -> v = None).
Proof.
  apply (C4_no_graded_category [Scenario.rec 8 7] Scenario.categories).
  - discriminate.
  - intros c [<-|[<-|[]]]; reflexivity.
Defined.

Lemma comprehension_app {A B} (f : A -> option B) (l l' : list A) :
  comprehension f (l ++ l') = comprehension f l ++ comprehension f l'.
Proof.
  induction l as [|x l IH]; [reflexivity|].
  cbn. destruct (f x); cbn; now rewrite IH.
Qed.

Lemma int_eq_false (x : option Z) (z : Z) :
  x <> Some z -> int_eq x z = false.
Proof.
  destruct x as [y|]; [|reflexivity]. cbn. intros H.
  apply Z.eqb_neq. congruence.
Qed.

Lemma c_grades_orphan grades o c :
  category_id o <> Some (id c) ->
  c_grades (grades ++ [o]) c = c_grades grades c.
Proof.
  intros H. unfold c_grades. rewrite comprehension_app. cbn.
  rewrite (int_eq_false _ _ H). apply app_nil_r.
Qed.

(** C5, as stated, fails when the list of categories is empty: every record
    is then an orphan, and the fallback mean counts it. *)
Lemma C5_counterexample :
  ~ (forall grades cats o,
        (forall c, In c cats -> category_id o <> Some (id c)) ->
        calculate_average_v3 (grades ++ [o]) cats =
        calculate_average_v3 grades cats).
Proof.
  intros H. specialize (H [] [] uncategorised).
  assert (V : forall c : GradingCategory,
             In c [] -> category_id uncategorised <> Some (id c))
    by (intros c []).
  specialize (H V).
  apply (f_equal (fun r => match r with
                           | Ok (s, _) => Qnum (this s)
                           | ZeroDivisionError => 0%Z
                           end)) in H.
  vm_compute in H. discriminate.
Qed.

(** C5, amended.  For a non-empty list of categories, appending a grade
    record whose category is none of the listed ones changes neither the
    final score nor the mapping. *)
Theorem C5_orphan_is_ignored (grades : list GradeRecord)
  (cats : list GradingCategory) (o : GradeRecord) :
  cats <> [] ->
  (forall c, In c cats -> category_id o <> Some (id c)) ->
  calculate_average_v3 (grades ++ [o]) cats =
  calculate_average_v3 grades cats.
Proof.
  intros N H. unfold calculate_average_v3.
  destruct cats as [|c0 cats]; [congruence|]. cbn [truthy negb].
  rewrite (for_each_ext (loop_body (grades ++ [o])) (loop_body grades));
    [reflexivity|].
  intros st c I. unfold loop_body. now rewrite (c_grades_orphan _ _ _ (H c I)).
Qed.

Lemma C5_witness :
  calculate_average_v3 (Scenario.full ++ [uncategorised])
    Scenario.categories =
  calculate_average_v3 Scenario.full Scenario.categories.
Proof.
  apply (C5_orphan_is_ignored Scenario.full Scenario.categories
           uncategorised).
  - discriminate.
  - intros c [<-|[<-|[]]]; discriminate.
Defined.

(** C7. [calculate_average_v3] returns a final score and a mapping on every
    input and never raises: the divisor [len] of a non-empty list and a
    positive [total_weight_used] are not zero, and these are the guards
    under which the two divisions are made. *)
Theorem C7_total :
  (forall grades cats,
      exists final_score d,
        calculate_average_v3 grades cats = Ok (final_score, d))
  /\ (forall l : list Qc, truthy l = true ->
        div (sum l) (len l) = Ok (sum l / len l))
  /\ (forall (s : Qc) (w : Z), (w >? 0)%Z = true ->
        div s (of_Z w) = Ok (s / of_Z w))
  /\ calculate_average_v3 Scenario.full malformed = Ok (0, [("Homework"%string, Some (of_Z 7)); ("Exams"%string, Some (of_Z 9))]).
Proof.
  split; [|split; [|split]].
  - intros grades cats. rewrite calculate_average_v3_eq. eauto.
  - intros l H. apply div_ok. now apply len_neq_0.
  - intros s w H. apply div_ok, of_Z_pos_neq. now apply Z.gtb_lt.
  - by_evaluation.
Qed.

Lemma C7_witness :
  truthy [of_Z 8; of_Z 6] = true
  /\ div (sum [of_Z 8; of_Z 6]) (len [of_Z 8; of_Z 6]) =
     Ok (sum [of_Z 8; of_Z 6] / len [of_Z 8; of_Z 6]).
Proof.
  split; [reflexivity|].
  apply (proj1 (proj2 C7_total) [of_Z 8; of_Z 6]). reflexivity.
Defined.

(** ** Bounds *)

Lemma comprehension_In {A B} (f : A -> option B) (l : list A) (y : B) :
  In y (comprehension f l) -> exists x, In x l /\ f x = Some y.
Proof.
  induction l as [|x l IH]; cbn; [intros []|].
  destruct (f x) as [z|] eqn:E.
  - intros [<-|H].
    + exists x. split; [now left|exact E].
    + destruct (IH H) as (x' & I & E'). exists x'. split; [now right|exact E'].
  - intros H. destruct (IH H) as (x' & I & E'). exists x'.
    split; [now right|exact E'].
Qed.

Lemma c_grades_In grades c x :
  In x (c_grades grades c) -> exists g, In g grades /\ grade g = Some x.
Proof.
  intros H. apply comprehension_In in H. destruct H as (g & I & E).
  exists g. split; [exact I|]. now destruct (int_eq _ _).
Qed.

Lemma total_bounds (lo hi : Qc) (l : list Qc) :
  (forall x, In x l -> lo <= x /\ x <= hi) ->
  lo * len l <= fold_right Qcplus 0 l /\ fold_right Qcplus 0 l <= hi * len l.
Proof.
  induction l as [|x l IH]; intros H.
  - unfold len. cbn. rewrite of_Z_0, !Qcmult_0_r. split; apply Qcle_refl.
  - rewrite len_cons. cbn [fold_right].
    destruct (H x (or_introl eq_refl)) as [Hl Hh].
    destruct IH as [IHl IHh]; [intros y I; apply H; now right|].
    rewrite !Qcmult_plus_distr_r, !Qcmult_1_r.
    split; now apply Qcplus_le_compat.
Qed.

Lemma quotient_bounds (lo hi s n : Qc) :
  0 < n -> lo * n <= s -> s <= hi * n -> lo <= s / n /\ s / n <= hi.
Proof.
  intros Hn Hl Hh.
  assert (E : s / n * n = s).
  { rewrite Qcmult_comm. apply Qcmult_div_r.
    intros Z. rewrite Z in Hn. revert Hn. apply Qcle_not_lt, Qcle_refl. }
  split; apply (Qcmult_lt_0_le_reg_r _ _ n Hn); now rewrite E.
Qed.

Lemma mean_bounds (lo hi : Qc) (l : list Qc) :
  truthy l = true ->
  (forall x, In x l -> lo <= x /\ x <= hi) ->
  lo <= arithmetic_mean l /\ arithmetic_mean l <= hi.
Proof.
  intros T H. destruct (total_bounds lo hi l H) as [Hl Hh].
  apply quotient_bounds; try assumption. now apply len_pos.
Qed.

Lemma weighted_sum_bounds (hi : Qc) grades cats :
  (forall c, In c cats ->
     (0 <= weight c)%Z
     /\ 0 <= arithmetic_mean (c_grades grades c)
     /\ arithmetic_mean (c_grades grades c) <= hi) ->
  0 * of_Z (weight_total cats) <= weighted_sum grades cats
  /\ weighted_sum grades cats <= hi * of_Z (weight_total cats).
Proof.
  unfold weighted_sum, weight_total.
  induction cats as [|c cats IH]; intros H.
  - cbn. rewrite of_Z_0, !Qcmult_0_r. split; apply Qcle_refl.
  - cbn [map fold_right].
    destruct (H c (or_introl eq_refl)) as (Hw & Hl & Hh).
    destruct IH as [IHl IHh]; [intros y I; apply H; now right|].
    apply of_Z_le in Hw. rewrite of_Z_0 in Hw.
    rewrite of_Z_plus, !Qcmult_plus_distr_r.
    split; (apply Qcplus_le_compat; [|assumption]);
      now apply Qcmult_le_compat_r.
Qed.

Lemma graded_In grades cats c :
  In c (graded grades cats) -> In c cats /\ truthy (c_grades grades c) = true.
Proof. unfold graded. intros H. now apply filter_In in H. Qed.

(** C9. When every non-null grade lies in [0, 10] and no weight is
    negative, the final score lies in [0, 10], and so does every value of
    the mapping that is not the no-data marker. *)
Theorem C9_bounds (grades : list GradeRecord) (cats : list GradingCategory) :
  (forall g x, In g grades -> grade g = Some x -> 0 <= x /\ x <= of_Z 10) ->
  (forall c, In c cats -> (0 <= weight c)%Z) ->
  exists s d,
    calculate_average_v3 grades cats = Ok (s, d)
    /\ 0 <= s /\ s <= of_Z 10
    /\ (forall n x, In (n, Some x) d -> 0 <= x /\ x <= of_Z 10).
Proof.
  intros G W.
  assert (A : forall c, truthy (c_grades grades c) = true ->
                0 <= arithmetic_mean (c_grades grades c)
                /\ arithmetic_mean (c_grades grades c) <= of_Z 10).
  { intros c T. apply mean_bounds; [exact T|].
    intros x I. apply c_grades_In in I. destruct I as (g & I & E).
    now apply (G g). }
  exists (final_of grades cats), (averages_of grades cats).
  split; [apply calculate_average_v3_eq|].
  assert (Z10 : 0 <= of_Z 10) by (rewrite <- of_Z_0; now apply of_Z_le).
  split; [|split].
  - destruct cats as [|c0 cats]; cbn [final_of].
    + destruct (valid_grades grades) as [|x l] eqn:E; [apply Qcle_refl|].
      rewrite <- E. apply (mean_bounds 0 (of_Z 10)).
      * now rewrite E.
      * intros y I. apply comprehension_In in I.
        destruct I as (g & I & E'). now apply (G g).
    + unfold weighted_final.
      destruct (_ >? 0)%Z eqn:P; [|apply Qcle_refl].
      apply Z.gtb_lt in P.
      destruct (weighted_sum_bounds (of_Z 10) grades
                  (graded grades (c0 :: cats))) as [Hl Hh].
      { intros c I. apply graded_In in I. destruct I as [I T].
        split; [now apply W|now apply A]. }
      apply (quotient_bounds 0 (of_Z 10)); try assumption.
      rewrite <- of_Z_0. now apply of_Z_lt.
  - destruct cats as [|c0 cats]; cbn [final_of].
    + destruct (valid_grades grades) as [|x l] eqn:E; [exact Z10|].
      rewrite <- E. apply (mean_bounds 0 (of_Z 10)).
      * now rewrite E.
      * intros y I. apply comprehension_In in I.
        destruct I as (g & I & E'). now apply (G g).
    + unfold weighted_final.
      destruct (_ >? 0)%Z eqn:P; [|exact Z10].
      apply Z.gtb_lt in P.
      destruct (weighted_sum_bounds (of_Z 10) grades
                  (graded grades (c0 :: cats))) as [Hl Hh].
      { intros c I. apply graded_In in I. destruct I as [I T].
        split; [now apply W|now apply A]. }
      apply (quotient_bounds 0 (of_Z 10)); try assumption.
      rewrite <- of_Z_0. now apply of_Z_lt.
  - intros n x I. apply averages_In in I. destruct I as (c & _ & _ & E).
    rewrite has_grades_average in E. unfold has_grades in E.
    destruct (truthy (c_grades grades c)) eqn:T; [|discriminate].
    injection E as <-. now apply A.
Qed.

Lemma C9_witness :
  exists s d,
    calculate_average_v3 Scenario.full Scenario.categories = Ok (s, d)
    /\ 0 <= s /\ s <= of_Z 10
    /\ (forall n x, In (n, Some x) d -> 0 <= x /\ x <= of_Z 10).
Proof.
  apply (C9_bounds Scenario.full Scenario.categories).
  - intros g x [<-|[<-|[<-|[]]]] [= <-]; split; unfold Qcle; vm_compute;
      discriminate.
  - intros c [<-|[<-|[]]]; cbn; lia.
Defined.

(** ** Categories that share a name *)

Lemma weight_total_graded_cons grades c cats :
  weight_total (graded grades (c :: cats)) =
  (weight_share grades c + weight_total (graded grades cats))%Z.
Proof.
  rewrite graded_cons. unfold weight_share.
  now destruct (has_grades grades c).
Qed.

Lemma weighted_sum_graded_cons grades c cats :
  weighted_sum grades (graded grades (c :: cats)) =
  score_share grades c + weighted_sum grades (graded grades cats).
Proof.
  rewrite graded_cons. unfold score_share.
  destruct (has_grades grades c); [reflexivity|].
  now rewrite Qcplus_0_l.
Qed.

Lemma averages_get_last grades pre c post :
  (forall c', In c' post -> name c' <> name c) ->
  dict_get (averages_of grades (pre ++ c :: post)) (name c) =
  Some (category_average grades c).
Proof.
  induction post as [|c' post IH] using rev_ind; intros H.
  - rewrite averages_snoc. apply dict_get_set_eq.
  - change (pre ++ c :: post ++ [c']) with (pre ++ (c :: post) ++ [c']).
    rewrite app_assoc, averages_snoc, dict_get_set_neq.
    + apply IH. intros c0 I. apply H. apply in_or_app. now left.
    + apply H. apply in_or_app. right. now left.
Qed.

Lemma duplicate_perm {A} (l1 l2 l3 : list A) (c1 c2 : A) :
  Permutation (l1 ++ c1 :: l2 ++ c2 :: l3) (c1 :: c2 :: l1 ++ l2 ++ l3).
Proof.
  apply Permutation_sym.
  eapply Permutation_trans; [|apply Permutation_middle].
  apply perm_skip. rewrite !app_assoc. apply Permutation_middle.
Qed.

(** C10. When two categories with distinct ids share a name, the mapping
    has one entry for the name, holding the result of the last category
    that bears it, while both categories add their shares to the score and
    to the weight used.  With two categories "Quiz" of weight 50, grade 10
    in the first and 6 in the second, the mapping shows 6 and the final
    score is 8. *)
Theorem C10_shared_name :
  (forall grades l1 c1 l2 c2 l3,
      name c1 = name c2 ->
      id c1 <> id c2 ->
      (forall c, In c l3 -> name c <> name c2) ->
      exists s d,
        calculate_average_v3 grades (l1 ++ c1 :: l2 ++ c2 :: l3) = Ok (s, d)
        /\ count_occ string_dec (keys d) (name c2) = 1%nat
        /\ dict_get d (name c2) = Some (category_average grades c2)
        /\ s = (let w := (weight_share grades c1 + weight_share grades c2
                          + weight_total (graded grades (l1 ++ l2 ++ l3)))%Z
                in
                if (w >? 0)%Z
                then (score_share grades c1 + score_share grades c2
                      + weighted_sum grades (graded grades (l1 ++ l2 ++ l3)))
                     / of_Z w
                else 0))
  /\ calculate_average_v3 [Scenario.rec 10 1; Scenario.rec 6 2]
       [Quiz1; Quiz2] =
     Ok (of_Z 8, [("Quiz"%string, Some (of_Z 6))]).
Proof.
  split; [|by_evaluation].
  intros grades l1 c1 l2 c2 l3 E N L.
  set (cats := l1 ++ c1 :: l2 ++ c2 :: l3).
  exists (final_of grades cats), (averages_of grades cats).
  split; [apply calculate_average_v3_eq|].
  assert (G : dict_get (averages_of grades cats) (name c2) =
              Some (category_average grades c2)).
  { unfold cats.
    change (l1 ++ c1 :: l2 ++ c2 :: l3)
      with (l1 ++ (c1 :: l2) ++ c2 :: l3).
    rewrite app_assoc. now apply averages_get_last. }
  split; [|split; [exact G|]].
  - apply NoDup_count_occ'; [apply averages_nodup|].
    apply dict_get_In in G. apply (in_map fst) in G. exact G.
  - rewrite (final_of_perm grades cats _ (duplicate_perm l1 l2 l3 c1 c2)).
    cbn [final_of]. unfold weighted_final.
    rewrite !weight_total_graded_cons, !weighted_sum_graded_cons.
    cbv zeta. now rewrite !Z.add_assoc, !Qcplus_assoc.
Qed.

Lemma C10_witness :
  exists s d,
    calculate_average_v3 [Scenario.rec 10 1; Scenario.rec 6 2]
      ([] ++ Quiz1 :: [] ++ Quiz2 :: []) = Ok (s, d)
    /\ count_occ string_dec (keys d) (name Quiz2) = 1%nat
    /\ dict_get d (name Quiz2) =
       Some (category_average [Scenario.rec 10 1; Scenario.rec 6 2] Quiz2)
    /\ s = of_Z 8.
Proof.
  destruct (proj1 C10_shared_name [Scenario.rec 10 1; Scenario.rec 6 2]
              [] Quiz1 [] Quiz2 [])
    as (s & d & R & K & V & F).
  - reflexivity.
  - discriminate.
  - intros c [].
  - exists s, d. split; [exact R|]. split; [exact K|]. split; [exact V|].
    rewrite F. by_evaluation.
Defined.

(** ** The year final *)

Lemma period_body_eq raw cats acc p :
  period_body raw cats acc p =
  Ok (if truthy (p_grades raw p)
      then acc ++ [final_of (p_grades raw p) cats]
      else acc).
Proof.
  unfold period_body. destruct (truthy (p_grades raw p)); [|reflexivity].
  now rewrite calculate_average_v3_eq.
Qed.

Lemma period_fold raw cats (ps : list Z) : forall acc,
  fold_left
    (fun acc p =>
       if truthy (p_grades raw p)
       then acc ++ [final_of (p_grades raw p) cats]
       else acc) ps acc =
  acc ++ map (fun p => final_of (p_grades raw p) cats)
           (filter (fun p => truthy (p_grades raw p)) ps).
Proof.
  induction ps as [|p ps IH]; intros acc; cbn.
  - now rewrite app_nil_r.
  - rewrite IH. destruct (truthy (p_grades raw p)); [|reflexivity].
    now rewrite <- app_assoc.
Qed.

Lemma period_averages_eq sys raw cats :
  period_averages sys raw cats = Ok (period_finals sys raw cats).
Proof.
  unfold period_averages.
  rewrite (for_each_fold _
             (fun acc p =>
                if truthy (p_grades raw p)
                then acc ++ [final_of (p_grades raw p) cats]
                else acc))
    by (intros; apply period_body_eq).
  now rewrite period_fold.
Qed.

Lemma year_final_cell_eq sys raw cats :
  year_final_cell sys raw cats =
  Ok (match period_finals sys raw cats with
      | [] => 0
      | _ :: _ => round2 (arithmetic_mean (period_finals sys raw cats))
      end).
Proof.
  unfold year_final_cell. rewrite period_averages_eq. cbn [bind].
  destruct (period_finals sys raw cats) as [|x l] eqn:E; [reflexivity|].
  cbn [truthy]. rewrite div_mean by reflexivity. reflexivity.
Qed.

Lemma progress_year_final_eq sys raw cats :
  progress_year_final sys raw cats =
  Ok (match period_finals sys raw cats with
      | [] => None
      | _ :: _ => Some (arithmetic_mean (period_finals sys raw cats))
      end).
Proof.
  unfold progress_year_final. rewrite period_averages_eq. cbn [bind].
  destruct (period_finals sys raw cats) as [|x l] eqn:E; [reflexivity|].
  cbn [truthy]. rewrite div_mean by reflexivity. reflexivity.
Qed.

(** ** Further properties of [calculate_average_v3] *)

Lemma of_Z_mult (a b : Z) : of_Z (a * b) = of_Z a * of_Z b.
Proof.
  apply Qc_is_canon. unfold of_Z, Qcmult. cbn [this Q2Qc].
  rewrite !Qred_correct, inject_Z_mult. reflexivity.
Qed.

(** The result depends on the grades only through the emptiness and the
    mean of the list of valid grades and of each category's list. *)
Lemma final_averages_ext grades grades' cats :
  truthy (valid_grades grades) = truthy (valid_grades grades') ->
  arithmetic_mean (valid_grades grades) =
  arithmetic_mean (valid_grades grades') ->
  (forall c, In c cats ->
     has_grades grades c = has_grades grades' c
     /\ arithmetic_mean (c_grades grades c) =
        arithmetic_mean (c_grades grades' c)) ->
  final_of grades cats = final_of grades' cats
  /\ averages_of grades cats = averages_of grades' cats.
Proof.
  intros T M H. split.
  - destruct cats as [|c0 cats]; cbn [final_of].
    + destruct (valid_grades grades), (valid_grades grades');
        try discriminate; [reflexivity|exact M].
    + unfold weighted_final.
      assert (G : graded grades (c0 :: cats) = graded grades' (c0 :: cats)).
      { unfold graded. apply filter_ext_in. intros c I. now apply H. }
      rewrite <- G.
      assert (S : weighted_sum grades (graded grades (c0 :: cats)) =
                  weighted_sum grades' (graded grades (c0 :: cats))).
      { unfold weighted_sum. f_equal. apply map_ext_in. intros c I.
        apply graded_In in I. destruct I as [I _].
        now rewrite (proj2 (H c I)). }
      now rewrite S.
  - unfold averages_of. revert H. generalize (@nil (string * option Qc)).
    induction cats as [|c cats IH]; intros d H; [reflexivity|].
    cbn [fold_left]. rewrite !has_grades_average.
    destruct (H c (or_introl eq_refl)) as [-> ->].
    apply IH. intros c' I. apply H. now right.
Qed.

Lemma comprehension_middle {A B} (f : A -> option B) (l l' : list A) (x : A) :
  f x = None ->
  comprehension f (l ++ x :: l') = comprehension f (l ++ l').
Proof.
  intros E. rewrite !comprehension_app. cbn. now rewrite E.
Qed.

(** X1. A record whose grade is null never counts: wherever it stands in
    the grades list and whatever the categories, the result is the one
    obtained without it. *)
Theorem X1_null_grade_is_ignored (grades1 grades2 : list GradeRecord)
  (o : GradeRecord) (cats : list GradingCategory) :
  grade o = None ->
  calculate_average_v3 (grades1 ++ o :: grades2) cats =
  calculate_average_v3 (grades1 ++ grades2) cats.
Proof.
  intros E. rewrite !calculate_average_v3_eq.
  assert (V : valid_grades (grades1 ++ o :: grades2) =
              valid_grades (grades1 ++ grades2))
    by (apply comprehension_middle; exact E).
  assert (C : forall c, c_grades (grades1 ++ o :: grades2) c =
                        c_grades (grades1 ++ grades2) c).
  { intros c. apply comprehension_middle. rewrite E.
    now destruct (int_eq _ _). }
  destruct (final_averages_ext (grades1 ++ o :: grades2)
              (grades1 ++ grades2) cats) as [-> ->];
    [now rewrite V|now rewrite V| |reflexivity].
  intros c _. unfold has_grades. now rewrite C.
Qed.

Lemma X1_witness :
  calculate_average_v3
    ([Scenario.rec 8 1] ++ mkGrade None (Some 1%Z) (Some 1%Z)
                        :: [Scenario.rec 9 2]) Scenario.categories =
  calculate_average_v3 ([Scenario.rec 8 1] ++ [Scenario.rec 9 2])
    Scenario.categories.
Proof.
  apply (X1_null_grade_is_ignored [Scenario.rec 8 1] [Scenario.rec 9 2]
           (mkGrade None (Some 1%Z) (Some 1%Z)) Scenario.categories).
  reflexivity.
Defined.

(** X4. A category that has no matching non-null grade, or whose weight is
    0, does not influence the final score: as long as another category
    remains, the final score is the one obtained with that category
    removed from the list. *)
Theorem X4_idle_category (grades : list GradeRecord)
  (l1 l2 : list GradingCategory) (c : GradingCategory) :
  l1 ++ l2 <> [] ->
  c_grades grades c = [] \/ weight c = 0%Z ->
  exists s d d',
    calculate_average_v3 grades (l1 ++ c :: l2) = Ok (s, d)
    /\ calculate_average_v3 grades (l1 ++ l2) = Ok (s, d').
Proof.
  intros N H.
  exists (final_of grades (l1 ++ l2)), (averages_of grades (l1 ++ c :: l2)),
    (averages_of grades (l1 ++ l2)).
  split; [|apply calculate_average_v3_eq].
  rewrite calculate_average_v3_eq. f_equal. f_equal.
  rewrite (final_of_perm grades (l1 ++ c :: l2) (c :: l1 ++ l2))
    by (apply Permutation_sym, Permutation_middle).
  rewrite (nonempty_eq (l1 ++ l2)) by assumption. cbn [final_of].
  unfold weighted_final.
  rewrite weight_total_graded_cons, weighted_sum_graded_cons.
  assert (W : weight_share grades c = 0%Z).
  { unfold weight_share, has_grades.
    destruct H as [-> | ->]; [reflexivity|now destruct (truthy _)]. }
  assert (S : score_share grades c = 0).
  { unfold score_share, has_grades.
    destruct H as [-> | ->]; [reflexivity|].
    destruct (truthy _); [|reflexivity].
    now rewrite of_Z_0, Qcmult_0_r. }
  now rewrite W, S, Z.add_0_l, Qcplus_0_l.
Qed.

Lemma X4_witness :
  exists s d d',
    calculate_average_v3 Scenario.partial
      ([Scenario.Homework] ++ Scenario.Exams :: []) = Ok (s, d)
    /\ calculate_average_v3 Scenario.partial ([Scenario.Homework] ++ [])
       = Ok (s, d').
Proof.
  apply (X4_idle_category Scenario.partial [Scenario.Homework] []
           Scenario.Exams).
  - discriminate.
  - left. reflexivity.
Defined.

(** X6. The mapping has exactly one entry for each distinct category name
    and no other entry, whatever the grades; in particular it never has
    more entries than there are categories. *)
Theorem X6_mapping_keys (grades : list GradeRecord)
  (cats : list GradingCategory) :
  exists s d,
    calculate_average_v3 grades cats = Ok (s, d)
    /\ NoDup (keys d)
    /\ (forall n, In n (keys d) <-> In n (map name cats))
    /\ (List.length d <= List.length cats)%nat.
Proof.
  exists (final_of grades cats), (averages_of grades cats).
  split; [apply calculate_average_v3_eq|].
  split; [apply averages_nodup|]. split; [apply averages_keys|].
  rewrite <- (length_map fst), <- (length_map name cats).
  apply NoDup_incl_length; [apply averages_nodup|].
  intros n. apply averages_keys.
Qed.

(** ** Rounding to two decimals *)

Lemma round_half_even_spec (q : Q) :
  (2 * round_half_even q * QDen q - QDen q <= 2 * Qnum q
  /\ 2 * Qnum q <= 2 * round_half_even q * QDen q + QDen q)%Z.
Proof.
  unfold round_half_even. destruct q as [n d]. cbn [Qnum Qden].
  pose proof (Z.div_mod n (Zpos d) ltac:(lia)) as E.
  pose proof (Z.mod_pos_bound n (Zpos d) ltac:(lia)) as B.
  set (fl := (n / Zpos d)%Z) in *. set (r := (n mod Zpos d)%Z) in *.
  destruct (Z.ltb_spec (2 * r) (Zpos d));
    [|destruct (Z.ltb_spec (Zpos d) (2 * r)); [|destruct (Z.even fl)]];
    nia.
Qed.

Lemma round_half_even_Q (q : Q) :
  (inject_Z (round_half_even q) - (1 # 2) <= q
   /\ q <= inject_Z (round_half_even q) + (1 # 2))%Q.
Proof.
  destruct (round_half_even_spec q) as [L U].
  destruct q as [n d]. cbn [Qnum Qden] in *.
  set (z := round_half_even (n # d)) in *.
  unfold Qle, Qminus, Qplus, Qopp, inject_Z. cbn. lia.
Qed.

Lemma round_half_even_mono (q q' : Q) :
  (q < q')%Q -> (round_half_even q <= round_half_even q')%Z.
Proof.
  intros H. destruct (round_half_even_Q q) as [L _].
  destruct (round_half_even_Q q') as [_ U].
  assert (X : (inject_Z (round_half_even q)
               < inject_Z (round_half_even q') + 1)%Q) by lra.
  rewrite <- (inject_Z_plus _ 1) in X. rewrite <- Zlt_Qlt in X. lia.
Qed.

Lemma round_half_even_int (z : Z) : round_half_even (inject_Z z) = z.
Proof.
  unfold round_half_even, inject_Z. cbn [Qnum Qden].
  rewrite Z.div_1_r, Z.mod_1_r. reflexivity.
Qed.

Lemma this_of_Z (z : Z) : this (of_Z z) = inject_Z z.
Proof.
  unfold of_Z. cbn [this Q2Qc]. apply Qred_identity.
  unfold inject_Z. cbn. apply Z.gcd_1_r.
Qed.

Lemma this_times_100 (x : Qc) :
  (this (x * of_Z 100)%Qc == this x * 100)%Q.
Proof.
  change (this (x * of_Z 100)) with (Qred (this x * this (of_Z 100))%Q).
  rewrite Qred_correct, this_of_Z. reflexivity.
Qed.

Lemma round2_this (x : Qc) :
  (this (round2 x) * 100
   == inject_Z (round_half_even (x * of_Z 100)%Qc))%Q.
Proof.
  unfold round2. cbn [this Q2Qc]. rewrite Qred_correct. field.
Qed.

Lemma round2_close (x : Qc) :
  (this (round2 x) - (1 # 200) <= x /\ x <= this (round2 x) + (1 # 200))%Q.
Proof.
  destruct (round_half_even_Q (x * of_Z 100)%Qc) as [L U].
  pose proof (this_times_100 x) as E. pose proof (round2_this x) as R.
  set (z := inject_Z (round_half_even (x * of_Z 100)%Qc)) in *.
  set (y := this (x * of_Z 100)%Qc) in *.
  split; lra.
Qed.

Lemma round2_mono (x y : Qc) : x <= y -> round2 x <= round2 y.
Proof.
  intros H. apply Qcle_lt_or_eq in H. destruct H as [H| ->];
    [|apply Qcle_refl].
  unfold Qcle.
  pose proof (round2_this x) as Rx. pose proof (round2_this y) as Ry.
  assert (M : (round_half_even (x * of_Z 100)%Qc
               <= round_half_even (y * of_Z 100)%Qc)%Z).
  { apply round_half_even_mono.
    pose proof (this_times_100 x) as Ex.
    pose proof (this_times_100 y) as Ey.
    unfold Qclt in H. lra. }
  rewrite Zle_Qle in M. lra.
Qed.

Lemma round2_cents (n : Z) : round2 (dec n 100) = dec n 100.
Proof.
  assert (E : dec n 100 * of_Z 100 = of_Z n).
  { apply Qc_is_canon. unfold dec, of_Z, Qcmult. cbn [this Q2Qc].
    rewrite !Qred_correct. unfold Qeq, Qmult, inject_Z. cbn. lia. }
  unfold round2. rewrite E, this_of_Z, round_half_even_int.
  unfold dec. apply Q2Qc_eq_iff. unfold Qeq, Qdiv, Qmult, Qinv, inject_Z.
  cbn. lia.
Qed.

Lemma round2_is_cents (x : Qc) : exists n, round2 x = dec n 100.
Proof.
  exists (round_half_even (x * of_Z 100)%Qc). unfold round2, dec.
  apply Q2Qc_eq_iff. unfold Qeq, Qdiv, Qmult, Qinv, inject_Z. cbn. lia.
Qed.

Lemma round2_of_Z (z : Z) : round2 (of_Z z) = of_Z z.
Proof.
  assert (E : of_Z z = dec (100 * z) 100).
  { apply Q2Qc_eq_iff. unfold Qeq, inject_Z. cbn [Qnum Qden]. lia. }
  rewrite E. apply round2_cents.
Qed.

(** ** Cells of the gradebooks *)

Lemma periods_cases (sys : string) :
  periods sys = [1%Z; 2%Z] \/ periods sys = [1%Z; 2%Z; 3%Z].
Proof.
  unfold periods, num_p. destruct (String.eqb sys "semesters"); auto.
Qed.

Lemma p_grades_middle raw1 raw2 g p :
  period g <> Some p ->
  p_grades (raw1 ++ g :: raw2) p = p_grades (raw1 ++ raw2) p.
Proof.
  intros H. unfold p_grades. rewrite !filter_app. cbn [filter].
  now rewrite (int_eq_false _ _ H).
Qed.

Lemma period_averages_middle sys raw1 raw2 g cats :
  (forall p, In p (periods sys) -> period g <> Some p) ->
  period_averages sys (raw1 ++ g :: raw2) cats =
  period_averages sys (raw1 ++ raw2) cats.
Proof.
  intros H. unfold period_averages. apply for_each_ext.
  intros acc p I. unfold period_body.
  now rewrite (p_grades_middle _ _ _ _ (H p I)).
Qed.

(** X7. A grade record influences a gradebook cell only through the
    period the cell covers: a record whose period is null or is none of
    the periods of the evaluation system never changes the "Year Final"
    cell nor the year final of the progress tab, and a record of another
    period never changes the cell of a specific period. *)
Theorem X7_records_of_other_periods (sys : string)
  (raw1 raw2 : list GradeRecord) (g : GradeRecord)
  (cats : list GradingCategory) :
  ((forall p, In p (periods sys) -> period g <> Some p) ->
   cell_val sys 0 (raw1 ++ g :: raw2) cats =
   cell_val sys 0 (raw1 ++ raw2) cats
   /\ progress_year_final sys (raw1 ++ g :: raw2) cats =
      progress_year_final sys (raw1 ++ raw2) cats)
  /\ (forall p, p <> 0%Z -> period g <> Some p ->
      cell_val sys p (raw1 ++ g :: raw2) cats =
      cell_val sys p (raw1 ++ raw2) cats).
Proof.
  split.
  - intros H. cbn [cell_val Z.eqb].
    unfold year_final_cell, progress_year_final.
    now rewrite (period_averages_middle _ _ _ _ _ H).
  - intros p N H. unfold cell_val.
    replace (p =? 0)%Z with false by (symmetry; now apply Z.eqb_neq).
    unfold period_cell. now rewrite (p_grades_middle _ _ _ _ H).
Qed.

Lemma X7_witness :
  cell_val "semesters" 0
    ([Scenario.rec 7 1] ++ mkGrade (Some (of_Z 2)) None (Some 3%Z) :: [])
    [] =
  cell_val "semesters" 0 ([Scenario.rec 7 1] ++ []) [].
Proof.
  apply (proj1 (X7_records_of_other_periods "semesters" [Scenario.rec 7 1]
                  [] (mkGrade (Some (of_Z 2)) None (Some 3%Z)) [])).
  intros p [<-|[<-|[]]]; discriminate.
Defined.

Lemma final_of_no_grades cats : final_of [] cats = 0.
Proof.
  destruct cats as [|c cats]; [reflexivity|].
  cbn [final_of]. unfold weighted_final.
  now rewrite graded_none by reflexivity.
Qed.

Lemma round2_0 : round2 0 = 0.
Proof. rewrite <- of_Z_0. apply round2_of_Z. Qed.

Lemma period_cell_eq p raw cats :
  period_cell p raw cats = Ok (round2 (final_of (p_grades raw p) cats)).
Proof. unfold period_cell. now rewrite calculate_average_v3_eq. Qed.

Lemma mean_single (x : Qc) : arithmetic_mean [x] = x.
Proof.
  unfold arithmetic_mean. cbn. change (of_Z 1) with 1.
  rewrite Qcplus_0_r. field. discriminate.
Qed.

Lemma finals_single sys raw cats p :
  In p (periods sys) ->
  p_grades raw p <> [] ->
  (forall q, In q (periods sys) -> q <> p -> p_grades raw q = []) ->
  period_finals sys raw cats = [final_of (p_grades raw p) cats].
Proof.
  intros I N H. unfold period_finals.
  assert (T : truthy (p_grades raw p) = true)
    by (destruct (p_grades raw p); [congruence|reflexivity]).
  assert (F : forall q, q <> p -> In q (periods sys) ->
                truthy (p_grades raw q) = false)
    by (intros q Nq Iq; now rewrite H).
  destruct (periods_cases sys) as [E|E]; rewrite E in *; cbn [filter];
    cbn [In] in I.
  - destruct I as [<-|[<-|[]]]; rewrite T.
    + rewrite (F 2%Z) by (cbn; auto; lia). reflexivity.
    + rewrite (F 1%Z) by (cbn; auto; lia). reflexivity.
  - destruct I as [<-|[<-|[<-|[]]]]; rewrite T.
    + rewrite (F 2%Z), (F 3%Z) by (cbn; auto; lia). reflexivity.
    + rewrite (F 1%Z), (F 3%Z) by (cbn; auto; lia). reflexivity.
    + rewrite (F 1%Z), (F 2%Z) by (cbn; auto; lia). reflexivity.
Qed.

(** X8. When a single period of the year has grade records, the "Year
    Final" cell shows what the cell of that period shows, while the cell
    of each period without records shows 0: an empty period is 0 on its
    own and absent from the year. *)
Theorem X8_single_period_year (sys : string) (raw : list GradeRecord)
  (cats : list GradingCategory) (p : Z) :
  In p (periods sys) ->
  p_grades raw p <> [] ->
  (forall q, In q (periods sys) -> q <> p -> p_grades raw q = []) ->
  cell_val sys 0 raw cats = cell_val sys p raw cats
  /\ (forall q, In q (periods sys) -> q <> p ->
        cell_val sys q raw cats = Ok 0).
Proof.
  intros I N H.
  assert (P0 : forall q, In q (periods sys) -> (q =? 0)%Z = false).
  { intros q Iq. apply Z.eqb_neq.
    destruct (periods_cases sys) as [E|E]; rewrite E in Iq; cbn in Iq;
      lia. }
  split.
  - unfold cell_val. rewrite (P0 p I). cbn [Z.eqb].
    rewrite year_final_cell_eq, period_cell_eq.
    rewrite (finals_single sys raw cats p I N H). now rewrite mean_single.
  - intros q Iq Nq. unfold cell_val. rewrite (P0 q Iq).
    rewrite period_cell_eq, (H q Iq Nq), final_of_no_grades.
    now rewrite round2_0.
Qed.

Lemma ge_true (x y : Qc) : ge x y = true <-> y <= x.
Proof. unfold ge, Qcle. apply Qle_bool_iff. Qed.

Lemma ge_false (x y : Qc) : ge x y = false <-> x < y.
Proof.
  split.
  - intros H. apply Qcnot_le_lt. intros L. apply ge_true in L. congruence.
  - intros H. destruct (ge x y) eqn:E; [|reflexivity].
    apply ge_true in E. now apply Qcle_not_lt in E.
Qed.

Lemma round2_near (x : Qc) :
  round2 x - x <= dec 1 200 /\ x - round2 x <= dec 1 200.
Proof.
  destruct (round2_close x) as [L U].
  unfold Qcle, Qcminus, Qcplus, Qcopp, dec. cbn [this Q2Qc].
  rewrite !Qred_correct. split; lra.
Qed.

(** X9. The "Year Final" cell of the gradebooks is the year final of the
    progress tab rounded to two decimals: it is a whole number of
    hundredths and the two differ by at most 0.005.  When the progress tab
    has no year final, no period having grades, the cell is 0. *)
Theorem X9_year_final_views (sys : string) (raw : list GradeRecord)
  (cats : list GradingCategory) :
  (forall y,
      progress_year_final sys raw cats = Ok (Some y) ->
      exists c n,
        cell_val sys 0 raw cats = Ok c
        /\ c = round2 y /\ c = dec n 100
        /\ c - y <= dec 1 200 /\ y - c <= dec 1 200)
  /\ (progress_year_final sys raw cats = Ok None ->
      cell_val sys 0 raw cats = Ok 0).
Proof.
  cbn [cell_val Z.eqb].
  rewrite progress_year_final_eq, year_final_cell_eq.
  destruct (period_finals sys raw cats) as [|x l]; split.
  - discriminate.
  - reflexivity.
  - intros y [= <-]. destruct (round2_is_cents (arithmetic_mean (x :: l)))
      as [n E].
    exists (round2 (arithmetic_mean (x :: l))), n.
    split; [reflexivity|]. split; [reflexivity|]. split; [exact E|].
    apply round2_near.
  - discriminate.
Qed.

Lemma X9_witness :
  exists c n,
    cell_val "semesters" 0 thirds [] = Ok c
    /\ c = round2 (dec 22 3) /\ c = dec n 100
    /\ c - dec 22 3 <= dec 1 200 /\ dec 22 3 - c <= dec 1 200.
Proof.
  apply (proj1 (X9_year_final_views "semesters" thirds []) (dec 22 3)).
  rewrite progress_year_final_eq.
  replace (period_finals "semesters" thirds [])
    with [final_of thirds []] by reflexivity.
  cbn [truthy]. apply f_equal, f_equal.
  rewrite mean_single. by_evaluation.
Defined.

Lemma final_of_bounds (grades : list GradeRecord)
  (cats : list GradingCategory) :
  (forall g x, In g grades -> grade g = Some x -> 0 <= x /\ x <= of_Z 10) ->
  (forall c, In c cats -> (0 <= weight c)%Z) ->
  0 <= final_of grades cats /\ final_of grades cats <= of_Z 10.
Proof.
  intros G W.
  assert (Z10 : 0 <= of_Z 10) by (rewrite <- of_Z_0; now apply of_Z_le).
  destruct cats as [|c0 cats]; cbn [final_of].
  - destruct (valid_grades grades) as [|x l] eqn:E;
      [split; [apply Qcle_refl|exact Z10]|].
    rewrite <- E. apply (mean_bounds 0 (of_Z 10)); [now rewrite E|].
    intros y I. apply comprehension_In in I.
    destruct I as (g & I & E'). now apply (G g).
  - unfold weighted_final.
    destruct (Z.gtb_spec (weight_total (graded grades (c0 :: cats))) 0)
      as [P|P]; [|split; [apply Qcle_refl|exact Z10]].
    destruct (weighted_sum_bounds (of_Z 10) grades
                (graded grades (c0 :: cats))) as [Hl Hh].
    { intros c I. apply graded_In in I. destruct I as [I T].
      split; [now apply W|]. apply mean_bounds; [exact T|].
      intros x Ix. apply c_grades_In in Ix. destruct Ix as (g & Ig & E).
      now apply (G g). }
    apply (quotient_bounds 0 (of_Z 10)); try assumption.
    rewrite <- of_Z_0. now apply of_Z_lt.
Qed.

Lemma round2_bounds (x : Qc) :
  0 <= x /\ x <= of_Z 10 -> 0 <= round2 x /\ round2 x <= of_Z 10.
Proof.
  intros [L U]. split.
  - rewrite <- round2_0. now apply round2_mono.
  - rewrite <- (round2_of_Z 10). now apply round2_mono.
Qed.

(** X10. When every non-null grade lies in [0, 10] and no weight is
    negative, every cell of the global gradebooks lies in [0, 10], for
    every period mode, and nothing is raised. *)
Theorem X10_cells_are_bounded (sys : string) (sel_p_mode : Z)
  (raw : list GradeRecord) (cats : list GradingCategory) :
  (forall g x, In g raw -> grade g = Some x -> 0 <= x /\ x <= of_Z 10) ->
  (forall c, In c cats -> (0 <= weight c)%Z) ->
  exists c,
    cell_val sys sel_p_mode raw cats = Ok c /\ 0 <= c /\ c <= of_Z 10.
Proof.
  intros G W.
  assert (F : forall p, 0 <= final_of (p_grades raw p) cats
                        /\ final_of (p_grades raw p) cats <= of_Z 10).
  { intros p. apply final_of_bounds; [|exact W].
    intros g x I. apply filter_In in I. now apply G. }
  unfold cell_val. destruct (sel_p_mode =? 0)%Z.
  - rewrite year_final_cell_eq.
    destruct (period_finals sys raw cats) as [|x l] eqn:E.
    + exists 0. split; [reflexivity|]. split; [apply Qcle_refl|].
      rewrite <- of_Z_0. now apply of_Z_le.
    + exists (round2 (arithmetic_mean (x :: l))).
      split; [reflexivity|]. apply round2_bounds.
      apply mean_bounds; [reflexivity|].
      intros y I. rewrite <- E in I. unfold period_finals in I.
      apply in_map_iff in I. destruct I as (p & <- & _). apply F.
  - rewrite period_cell_eq. eexists. split; [reflexivity|].
    apply round2_bounds, F.
Qed.

Lemma X10_witness :
  exists c,
    cell_val "semesters" 0 Scenario.full Scenario.categories = Ok c
    /\ 0 <= c /\ c <= of_Z 10.
Proof.
  apply (X10_cells_are_bounded "semesters" 0 Scenario.full
           Scenario.categories).
  - intros g x [<-|[<-|[<-|[]]]] [= <-]; split; unfold Qcle; vm_compute;
      discriminate.
  - intros c [<-|[<-|[]]]; cbn; lia.
Defined.

(** X11. The gradebooks offer the mode "Year Final" exactly for the
    systems "semesters" and "trimesters"; the periods it averages are then
    exactly the other modes offered, and for any other system the only
    mode is period 1. *)
Theorem X11_modes_and_periods (sys : string) :
  (In 0%Z (map snd (period_modes sys)) <->
   sys = "semesters"%string \/ sys = "trimesters"%string)
  /\ (In 0%Z (map snd (period_modes sys)) ->
      map snd (period_modes sys) = 0%Z :: periods sys)
  /\ (~ In 0%Z (map snd (period_modes sys)) ->
      map snd (period_modes sys) = [1%Z]).
Proof.
  unfold period_modes, periods, num_p.
  destruct (String.eqb sys "semesters") eqn:S.
  - apply String.eqb_eq in S. cbn. intuition.
  - destruct (String.eqb sys "trimesters") eqn:T.
    + apply String.eqb_eq in T. cbn. intuition.
    + apply String.eqb_neq in S, T. cbn. intuition; lia.
Qed.

Lemma year_final_views (sys : string) (raw : list GradeRecord)
  (cats : list GradingCategory) (y : Qc) :
  progress_year_final sys raw cats = Ok (Some y) ->
  year_final_cell sys raw cats = Ok (round2 y).
Proof.
  rewrite progress_year_final_eq, year_final_cell_eq.
  destruct (period_finals sys raw cats); [discriminate|].
  now intros [= <-].
Qed.

(** X12. With a non-zero passing grade that is a whole number of
    hundredths, a year final that the progress tab labels PASSED is shown
    as PASS in the student's gradebook summary: rounding the year final
    never turns a pass into a fail. *)
Theorem X12_passed_is_pass (sys : string) (raw : list GradeRecord)
  (cats : list GradingCategory) (y p : Qc) (n : Z) :
  p = dec n 100 ->
  p <> 0 ->
  progress_year_final sys raw cats = Ok (Some y) ->
  progress_label y (Some p) = Some "PASSED"%string ->
  exists c,
    cell_val sys 0 raw cats = Ok c
    /\ status c (gradebook_passing (Some p)) = "✅ PASS"%string.
Proof.
  intros E N Y L.
  exists (round2 y). split; [exact (year_final_views sys raw cats y Y)|].
  unfold gradebook_passing.
  destruct (Qc_eq_bool p 0) eqn:Z;
    [apply Qc_eq_bool_correct in Z; contradiction|].
  unfold progress_label in L. unfold status.
  destruct (ge y p) eqn:GE; [|discriminate].
  apply ge_true in GE. apply round2_mono in GE.
  rewrite E, round2_cents, <- E in GE.
  apply ge_true in GE. now rewrite GE.
Qed.

Lemma X12_witness :
  exists c,
    cell_val "semesters" 0 [Scenario.rec 7 1] [] = Ok c
    /\ status c (gradebook_passing (Some (dec 600 100))) = "✅ PASS"%string.
Proof.
  apply (X12_passed_is_pass "semesters" [Scenario.rec 7 1] [] (of_Z 7)
           (dec 600 100) 600).
  - reflexivity.
  - discriminate.
  - rewrite progress_year_final_eq.
    replace (period_finals "semesters" [Scenario.rec 7 1] [])
      with [final_of [Scenario.rec 7 1] []] by reflexivity.
    cbn [truthy]. apply f_equal, f_equal. by_evaluation.
  - reflexivity.
Defined.

(** X13. A passing grade of 0, or a missing one, is replaced by 6 in the
    gradebooks, whose threshold is therefore never 0, while the progress
    tab compares with the stored value: with a passing grade of 0 the
    progress tab labels every non-negative year final PASSED and the
    gradebook summary shows FAIL for every cell below 6. *)
Theorem X13_zero_passing_grade :
  (forall passing_grade, gradebook_passing passing_grade <> 0)
  /\ (forall x, x <> 0 -> gradebook_passing (Some x) = x)
  /\ (forall y c,
      0 <= y -> c < of_Z 6 ->
      progress_label y (Some 0) = Some "PASSED"%string
      /\ status c (gradebook_passing (Some 0)) = "❌ FAIL"%string
      /\ status c (gradebook_passing None) = "❌ FAIL"%string).
Proof.
  split; [|split].
  - intros [x|]; unfold gradebook_passing; [|discriminate].
    destruct (Qc_eq_bool x 0) eqn:E; [discriminate|].
    intros ->. discriminate.
  - intros x N. unfold gradebook_passing.
    destruct (Qc_eq_bool x 0) eqn:E; [|reflexivity].
    apply Qc_eq_bool_correct in E. contradiction.
  - intros y c Y C. unfold progress_label, status.
    apply ge_true in Y. apply ge_false in C. rewrite Y.
    change (gradebook_passing (Some 0)) with (of_Z 6).
    change (gradebook_passing None) with (of_Z 6).
    now rewrite C.
Qed.

Lemma X13_witness :
  progress_label (of_Z 2) (Some 0) = Some "PASSED"%string
  /\ status (of_Z 2) (gradebook_passing (Some 0)) = "❌ FAIL"%string
  /\ status (of_Z 2) (gradebook_passing None) = "❌ FAIL"%string.
Proof.
  apply (proj2 (proj2 X13_zero_passing_grade) (of_Z 2) (of_Z 2)).
  - unfold Qcle. vm_compute. discriminate.
  - reflexivity.
Defined.

Lemma X8_witness :
  cell_val "semesters" 0 [Scenario.rec 7 1] [] =
  cell_val "semesters" 1 [Scenario.rec 7 1] []
  /\ (forall q, In q (periods "semesters") -> q <> 1%Z ->
        cell_val "semesters" q [Scenario.rec 7 1] [] = Ok 0).
Proof.
  apply (X8_single_period_year "semesters" [Scenario.rec 7 1] [] 1).
  - left. reflexivity.
  - discriminate.
  - intros q [<-|[<-|[]]] N; [exfalso; apply N|]; reflexivity.
Defined.

Lemma X11_witness :
  map snd (period_modes "trimesters") = 0%Z :: periods "trimesters".
Proof.
  apply (proj1 (proj2 (X11_modes_and_periods "trimesters"))).
  left. reflexivity.
Defined.

(** ** Storage used by group *)

Lemma counters_get_set d k k' v def :
  counters_get (counters_set d k v) k' def =
  if String.eqb k k' then v else counters_get d k' def.
Proof.
  induction d as [|[k0 v0] d IH]; cbn.
  - reflexivity.
  - destruct (String.eqb k0 k) eqn:E; cbn.
    + apply String.eqb_eq in E. subst k0. now destruct (String.eqb k k').
    + rewrite IH. destruct (String.eqb k0 k') eqn:E'; [|reflexivity].
      apply String.eqb_eq in E'. subst k0. now rewrite String.eqb_sym, E.
Qed.

Lemma counters_keys_in d k v n :
  In n (map fst (counters_set d k v)) <-> In n (map fst d) \/ n = k.
Proof.
  induction d as [|[k0 v0] d IH]; cbn [counters_set map fst In].
  - intuition.
  - destruct (String.eqb k0 k) eqn:E; cbn [map fst In].
    + apply String.eqb_eq in E. subst k0. intuition.
    + rewrite IH. intuition.
Qed.

Lemma counters_keys_nodup d k v :
  NoDup (map fst d) -> NoDup (map fst (counters_set d k v)).
Proof.
  induction d as [|[k0 v0] d IH]; cbn [counters_set map fst]; intros N.
  - repeat constructor. intros [].
  - inversion N as [|x l N1 N2]; subst.
    destruct (String.eqb k0 k) eqn:E; cbn [map fst]; [now constructor|].
    apply String.eqb_neq in E. constructor; [|now apply IH].
    rewrite counters_keys_in. intros [H|H]; [contradiction|congruence].
Qed.

Lemma group_size_cons g row rows :
  group_size g (row :: rows) =
  ((if String.eqb (group_or_default row) g then size_or_zero row else 0)
   + group_size g rows)%Z.
Proof.
  unfold group_size. cbn [filter].
  now destruct (String.eqb (group_or_default row) g).
Qed.

Lemma group_size_app g rows rows' :
  group_size g (rows ++ rows') =
  (group_size g rows + group_size g rows')%Z.
Proof.
  induction rows as [|row rows IH]; [reflexivity|].
  cbn [app]. rewrite !group_size_cons, IH. lia.
Qed.

Lemma usage_fold_get g rows : forall d,
  counters_get (fold_left usage_body rows d) g 0 =
  (counters_get d g 0 + group_size g rows)%Z.
Proof.
  induction rows as [|row rows IH]; intros d.
  - cbn. unfold group_size. cbn. lia.
  - cbn [fold_left]. rewrite IH, group_size_cons. unfold usage_body.
    rewrite counters_get_set.
    destruct (String.eqb (group_or_default row) g) eqn:E; [|lia].
    apply String.eqb_eq in E. rewrite E. lia.
Qed.

Lemma usage_fold_keys g rows : forall d,
  In g (map fst (fold_left usage_body rows d)) <->
  In g (map fst d) \/ exists row, In row rows /\ group_or_default row = g.
Proof.
  induction rows as [|row rows IH]; intros d.
  - cbn. split; [tauto|]. intros [H|(row & [] & _)]. exact H.
  - cbn [fold_left]. rewrite IH. unfold usage_body.
    rewrite counters_keys_in. split.
    + intros [[H| ->]|(r & I & E)].
      * now left.
      * right. exists row. split; [now left|reflexivity].
      * right. exists r. split; [now right|exact E].
    + intros [H|(r & [<-|I] & E)].
      * left. now left.
      * left. right. now symmetry.
      * right. now exists r.
Qed.

Lemma usage_fold_nodup rows : forall d,
  NoDup (map fst d) -> NoDup (map fst (fold_left usage_body rows d)).
Proof.
  induction rows as [|row rows IH]; intros d N; [exact N|].
  cbn [fold_left]. apply IH. now apply counters_keys_nodup.
Qed.

(** X14. In the storage report every group has one entry, whose value is
    the sum of the sizes of the rows of both queries filed under the group,
    a NULL size counting as 0; a group has an entry exactly when some row
    is filed under it, and the report is empty only when both queries
    return no row. *)
Theorem X14_usage_per_group (sub_usage mat_usage : list UsageRow) :
  NoDup (map fst (get_space_usage_by_group sub_usage mat_usage))
  /\ (forall g,
      counters_get (get_space_usage_by_group sub_usage mat_usage) g 0 =
      group_size g (sub_usage ++ mat_usage))
  /\ (forall g,
      In g (map fst (get_space_usage_by_group sub_usage mat_usage)) <->
      exists row, In row (sub_usage ++ mat_usage)
                  /\ group_or_default row = g)
  /\ (get_space_usage_by_group sub_usage mat_usage = [] <->
      sub_usage = [] /\ mat_usage = []).
Proof.
  unfold get_space_usage_by_group. split; [|split; [|split]].
  - apply usage_fold_nodup, usage_fold_nodup. constructor.
  - intros g. rewrite !usage_fold_get, group_size_app. cbn. lia.
  - intros g. rewrite !usage_fold_keys. cbn [map In]. split.
    + intros [[[]|(r & I & E)]|(r & I & E)]; exists r;
        (split; [apply in_or_app; auto|exact E]).
    + intros (r & I & E). apply in_app_or in I. destruct I as [I|I].
      * left. right. now exists r.
      * right. now exists r.
  - split.
    + intros E.
      assert (K : forall g,
                 ~ In g (map fst (fold_left usage_body mat_usage
                                    (fold_left usage_body sub_usage []))))
        by (intros g; rewrite E; intros []).
      destruct sub_usage as [|r rs].
      * destruct mat_usage as [|r rs]; [now split|].
        exfalso. apply (K (group_or_default r)).
        apply usage_fold_keys. right. exists r. split; [now left|easy].
      * exfalso. apply (K (group_or_default r)).
        apply usage_fold_keys. left. apply usage_fold_keys. right.
        exists r. split; [now left|easy].
    + intros [-> ->]. reflexivity.
Qed.

Lemma X14_witness :
  In "No Group"%string
    (map fst (get_space_usage_by_group [mkUsage None (Some 5%Z)]
                [mkUsage (Some ""%string) None])).
Proof.
  apply (proj1 (proj2 (proj2 (X14_usage_per_group
                                [mkUsage None (Some 5%Z)]
                                [mkUsage (Some ""%string) None])))).
  exists (mkUsage None (Some 5%Z)). split; [now left|reflexivity].
Defined.

Lemma counters_total_set d k v :
  counters_total (counters_set d k v) =
  (counters_total d - counters_get d k 0 + v)%Z.
Proof.
  unfold counters_total.
  induction d as [|[k0 v0] d IH]; cbn [counters_set counters_get].
  - cbn. lia.
  - destruct (String.eqb k0 k); cbn [map snd fold_right].
    + lia.
    + rewrite IH. lia.
Qed.

Lemma usage_fold_total rows : forall d,
  counters_total (fold_left usage_body rows d) =
  (counters_total d + size_total rows)%Z.
Proof.
  unfold size_total. induction rows as [|row rows IH]; intros d.
  - cbn [fold_left map fold_right]. lia.
  - cbn [fold_left map fold_right]. rewrite IH. unfold usage_body.
    rewrite counters_total_set. lia.
Qed.

(** X15. The storage report neither loses nor double counts a size: its
    values add up to the sizes of all the rows of both queries, and when no
    size is negative no value is. *)
Theorem X15_usage_total (sub_usage mat_usage : list UsageRow) :
  counters_total (get_space_usage_by_group sub_usage mat_usage) =
  (size_total sub_usage + size_total mat_usage)%Z
  /\ ((forall row, In row (sub_usage ++ mat_usage) ->
         (0 <= size_or_zero row)%Z) ->
      forall g v,
        In (g, v) (get_space_usage_by_group sub_usage mat_usage) ->
        (0 <= v)%Z).
Proof.
  split.
  - unfold get_space_usage_by_group. rewrite !usage_fold_total.
    unfold counters_total. cbn. lia.
  - intros H g v I.
    assert (N : NoDup (map fst (get_space_usage_by_group sub_usage
                                  mat_usage))).
    { unfold get_space_usage_by_group.
      apply usage_fold_nodup, usage_fold_nodup. constructor. }
    assert (E : counters_get (get_space_usage_by_group sub_usage mat_usage)
                  g 0 = v).
    { revert N I. generalize (get_space_usage_by_group sub_usage mat_usage).
      induction c as [|[k0 v0] d IH]; cbn [map fst In counters_get];
        [intros _ []|].
      intros N [[= -> ->]|I].
      - now rewrite String.eqb_refl.
      - inversion N as [|x l N1 N2]; subst.
        destruct (String.eqb k0 g) eqn:E; [|now apply IH].
        apply String.eqb_eq in E. subst k0. exfalso. apply N1.
        now apply (in_map fst) in I. }
    rewrite <- E. unfold get_space_usage_by_group.
    rewrite !usage_fold_get. cbn [counters_get].
    rewrite Z.add_0_l, <- group_size_app. unfold group_size.
    induction (sub_usage ++ mat_usage) as [|row rows IH]; [cbn; lia|].
    cbn [filter]. destruct (String.eqb (group_or_default row) g).
    + cbn [map fold_right].
      assert (0 <= size_or_zero row)%Z by (apply H; now left).
      assert (0 <= fold_right Z.add 0
                     (map size_or_zero
                        (filter (fun r => String.eqb (group_or_default r) g)
                           rows)))%Z
        by (apply IH; intros r Ir; apply H; now right).
      lia.
    + apply IH. intros r Ir. apply H. now right.
Qed.

Lemma X15_witness :
  In ("No Group"%string, 5%Z)
    (get_space_usage_by_group [mkUsage None (Some 5%Z)]
       [mkUsage (Some ""%string) None])
  /\ (0 <= 5)%Z.
Proof.
  assert (I : In ("No Group"%string, 5%Z)
                (get_space_usage_by_group [mkUsage None (Some 5%Z)]
                   [mkUsage (Some ""%string) None])) by (now left).
  split; [exact I|].
  apply (proj2 (X15_usage_total [mkUsage None (Some 5%Z)]
                  [mkUsage (Some ""%string) None]))
    with (g := "No Group"%string); [|exact I].
  intros row [<-|[<-|[]]]; cbn; lia.
Defined.

(** ** The default period of the assignment editor *)

Lemma clamp_low hi p : (p <= 1)%Z -> (0 <= hi)%Z -> clamp_index hi p = 0%nat.
Proof. intros. unfold clamp_index. lia. Qed.

Lemma clamp_mid hi p :
  (1 <= p)%Z -> (p - 1 <= hi)%Z -> clamp_index hi p = Z.to_nat (p - 1).
Proof. intros. unfold clamp_index. lia. Qed.

Lemma clamp_high hi p :
  (hi < p)%Z -> (0 <= hi)%Z -> clamp_index hi p = Z.to_nat hi.
Proof. intros. unfold clamp_index. lia. Qed.

(** X16. In a class with semesters or trimesters the edit form of an
    assignment preselects the stored period when it is one of the periods
    of the system, period 1 when it is lower and the last period when it
    is higher, so the preselected period is always one of the system; for
    any other system the period is 1.  A NULL period raises in the two
    period systems. *)
Theorem X16_default_period (sys_eval : string) (p : Z) :
  (sys_eval = "semesters"%string \/ sys_eval = "trimesters"%string ->
   default_period sys_eval None = None
   /\ exists d,
        default_period sys_eval (Some p) = Some d
        /\ In d (periods sys_eval)
        /\ (In p (periods sys_eval) -> d = p)
        /\ ((p < 1)%Z -> d = 1%Z)
        /\ ((Z.of_nat (num_p sys_eval) < p)%Z ->
            d = Z.of_nat (num_p sys_eval)))
  /\ (sys_eval <> "semesters"%string -> sys_eval <> "trimesters"%string ->
      forall period, default_period sys_eval period = Some 1%Z).
Proof.
  split.
  - intros [-> | ->]; (split; [reflexivity|]);
      cbn [default_period String.eqb Ascii.eqb Bool.eqb andb].
    + destruct (Z_le_gt_dec p 1) as [L|L].
      * rewrite clamp_low by lia. exists 1%Z. cbn. intuition lia.
      * rewrite clamp_high by lia. exists 2%Z. cbn. intuition lia.
    + destruct (Z_le_gt_dec p 1) as [L|L];
        [|destruct (Z.eq_dec p 2) as [->|N]].
      * rewrite clamp_low by lia. exists 1%Z. cbn. intuition lia.
      * exists 2%Z. cbn. intuition lia.
      * rewrite clamp_high by lia. exists 3%Z. cbn. intuition lia.
  - intros S T period. unfold default_period.
    apply String.eqb_neq in S, T. now rewrite S, T.
Qed.

Lemma X16_witness :
  default_period "semesters" None = None
  /\ exists d,
       default_period "semesters" (Some 3%Z) = Some d
       /\ In d (periods "semesters")
       /\ (In 3%Z (periods "semesters") -> d = 3%Z)
       /\ ((3 < 1)%Z -> d = 1%Z)
       /\ ((Z.of_nat (num_p "semesters") < 3)%Z ->
           d = Z.of_nat (num_p "semesters")).
Proof.
  apply (proj1 (X16_default_period "semesters" 3)). left. reflexivity.
Defined.

(** ** Rows of the class gradebook *)

Lemma row_set_fresh (row : Row) k v :
  ~ In k (map fst row) -> row_set row k v = row ++ [(k, v)].
Proof.
  induction row as [|[k0 v0] row IH]; cbn; [reflexivity|].
  intros H. destruct (String.eqb k0 k) eqn:E.
  - apply String.eqb_eq in E. tauto.
  - rewrite IH by tauto. reflexivity.
Qed.

Lemma average_column_eq row item :
  average_column row item =
  row_set row (fst (column_of item)) (snd (column_of item)).
Proof. now destruct item. Qed.

Lemma prefixed_inj (a b : string) :
  ("Avg " ++ a)%string = ("Avg " ++ b)%string -> a = b.
Proof. cbn. now intros [= ->]. Qed.

Lemma columns_fold (d : dict) : forall row : Row,
  NoDup (keys d) ->
  (forall k, In k (keys d) -> ~ In ("Avg " ++ k)%string (map fst row)) ->
  fold_left average_column d row = row ++ map column_of d.
Proof.
  unfold keys. induction d as [|[k v] d IH]; intros row N F.
  - cbn. now rewrite app_nil_r.
  - cbn [fold_left map]. inversion N as [|x l N1 N2]; subst.
    rewrite average_column_eq, row_set_fresh
      by (apply F; now left).
    rewrite IH; [now rewrite <- app_assoc|exact N2|].
    intros k' I. rewrite map_app, in_app_iff. cbn [map fst In column_of].
    intros [H|[H|[]]].
    + apply (F k'); [now right|exact H].
    + apply prefixed_inj in H. subst k'. contradiction.
Qed.

(** X17. The row of a student in the class gradebook has the column
    "Student", then one column "Avg <name>" for each entry of the mapping,
    in its order, holding the average rounded to two decimals or a dash,
    then the column "Final Progress" with the rounded final score: whatever
    the names of the categories, no column overwrites another. *)
Theorem X17_gradebook_row (full_name : string) (s_raw : list GradeRecord)
  (cats : list GradingCategory) :
  exists s d,
    calculate_average_v3 s_raw cats = Ok (s, d)
    /\ gradebook_row full_name s_raw cats =
       Ok (("Student"%string, Text full_name)
           :: map column_of d
           ++ [("Final Progress"%string, Number (round2 s))])
    /\ NoDup
         (map fst
            (("Student"%string, Text full_name)
             :: map column_of d
             ++ [("Final Progress"%string, Number (round2 s))])).
Proof.
  exists (final_of s_raw cats), (averages_of s_raw cats).
  split; [apply calculate_average_v3_eq|].
  pose proof (averages_nodup s_raw cats) as N.
  set (d := averages_of s_raw cats) in *.
  assert (A : forall k, In k (map fst (map column_of d)) ->
                exists n, k = ("Avg " ++ n)%string /\ In n (keys d)).
  { intros k I. rewrite map_map in I. apply in_map_iff in I.
    destruct I as ([n v] & <- & I). exists n. split; [reflexivity|].
    now apply (in_map fst) in I. }
  split.
  - unfold gradebook_row. rewrite calculate_average_v3_eq. cbn [bind fst snd].
    fold d. rewrite columns_fold; [|exact N|].
    + rewrite row_set_fresh; [reflexivity|].
      cbn [app map fst In]. intros [H|H]; [discriminate|].
      destruct (A _ H) as (n & E & _). discriminate.
    + intros k _ [H|[]]. discriminate.
  - cbn [map fst]. constructor.
    + rewrite map_app, in_app_iff. cbn [map fst In].
      intros [H|[H|[]]]; [|discriminate].
      destruct (A _ H) as (n & E & _). discriminate.
    + rewrite map_app. apply NoDup_app.
      * rewrite map_map. unfold keys in N. clear A.
        induction d as [|[k v] d IH]; [constructor|].
        inversion N as [|x l N1 N2]; subst. cbn [map fst column_of].
        constructor; [|now apply IH]. intros I. apply in_map_iff in I.
        destruct I as ([k' v'] & E & I). cbn [fst column_of] in E.
        apply prefixed_inj in E. subst k'. apply N1.
        now apply (in_map fst) in I.
      * repeat constructor. intros [].
      * intros k I [<-|[]]. destruct (A _ I) as (n & E & _). discriminate.
Qed.

(** ** The billing overview *)

Lemma insert_sorted_perm s l : Permutation (insert_sorted s l) (s :: l).
Proof.
  induction l as [|x l IH]; cbn; [apply Permutation_refl|].
  destruct (String.leb s x); [apply Permutation_refl|].
  eapply Permutation_trans; [apply perm_skip, IH|apply perm_swap].
Qed.

Lemma sorted_perm l : Permutation (sorted l) l.
Proof.
  induction l as [|x l IH]; cbn; [constructor|].
  eapply Permutation_trans; [apply insert_sorted_perm|].
  now apply perm_skip.
Qed.

Lemma insert_sorted_Sorted s l :
  Sorted string_le l -> Sorted string_le (insert_sorted s l).
Proof.
  induction l as [|x l IH]; cbn; intros S.
  - repeat constructor.
  - destruct (String.leb s x) eqn:E.
    + constructor; [exact S|]. now constructor.
    + inversion S as [|y l' S' H]; subst.
      constructor; [now apply IH|].
      assert (X : string_le x s).
      { destruct (String.leb_total s x) as [T|T]; [congruence|exact T]. }
      destruct l as [|z l]; cbn; [now constructor|].
      destruct (String.leb s z); constructor; [exact X|].
      now inversion H.
Qed.

Lemma sorted_Sorted l : Sorted string_le (sorted l).
Proof.
  induction l as [|x l IH]; cbn; [constructor|].
  now apply insert_sorted_Sorted.
Qed.

Lemma int_sum_from (l : list Z) (a : Z) :
  fold_left Z.add l a = (a + fold_right Z.add 0 l)%Z.
Proof.
  revert a. induction l as [|x l IH]; intros a; cbn; [lia|].
  rewrite IH. lia.
Qed.

Lemma int_sum_cons (x : Z) (l : list Z) : int_sum (x :: l) = (x + int_sum l)%Z.
Proof. unfold int_sum. cbn. rewrite !int_sum_from. lia. Qed.

Lemma int_sum_perm (l l' : list Z) :
  Permutation l l' -> int_sum l = int_sum l'.
Proof.
  induction 1 as [|x l l' P IH|x y l|l l' l'' P1 IH1 P2 IH2].
  - reflexivity.
  - now rewrite !int_sum_cons, IH.
  - rewrite !int_sum_cons. lia.
  - now rewrite IH1.
Qed.

Lemma user_count_cons u us g :
  user_count (u :: us) g =
  ((if in_group g u then 1 else 0) + user_count us g)%Z.
Proof.
  unfold user_count. cbn [comprehension].
  destruct (in_group g u); [now rewrite int_sum_cons|lia].
Qed.

Lemma indicator_absent u (L : list string) :
  (forall g, In g L -> in_group g u = false) ->
  int_sum (map (fun g => if in_group g u then 1 else 0)%Z L) = 0%Z.
Proof.
  induction L as [|g L IH]; intros H; [reflexivity|].
  cbn [map]. rewrite int_sum_cons, (H g) by now left.
  rewrite IH; [reflexivity|]. intros g' I. apply H. now right.
Qed.

Lemma indicator_present u s (L : list string) :
  user_group u = Some s -> NoDup L -> In s L ->
  int_sum (map (fun g => if in_group g u then 1 else 0)%Z L) = 1%Z.
Proof.
  intros E.
  assert (G : forall g, in_group g u = String.eqb s g)
    by (intros g; unfold in_group; now rewrite E).
  induction L as [|g L IH]; intros N I; [destruct I|].
  cbn [map]. rewrite int_sum_cons, G. inversion N as [|x l N1 N2]; subst.
  destruct I as [->|I].
  - rewrite String.eqb_refl.
    rewrite (indicator_absent u L); [reflexivity|].
    intros g I. rewrite G. apply String.eqb_neq.
    intros ->. contradiction.
  - replace (String.eqb s g) with false.
    + now rewrite IH.
    + symmetry. apply String.eqb_neq. intros ->. contradiction.
Qed.

Lemma counts_cons u us (L : list string) :
  int_sum (map (user_count (u :: us)) L) =
  (int_sum (map (fun g => if in_group g u then 1 else 0)%Z L)
   + int_sum (map (user_count us) L))%Z.
Proof.
  induction L as [|g L IH]; [reflexivity|].
  cbn [map]. rewrite !int_sum_cons, IH, user_count_cons. lia.
Qed.

Lemma comprehension_In_inv {A B} (f : A -> option B) (l : list A) x y :
  In x l -> f x = Some y -> In y (comprehension f l).
Proof.
  induction l as [|a l IH]; [intros []|].
  intros [->|I] E; cbn.
  - rewrite E. now left.
  - destruct (f a); [right|]; now apply IH.
Qed.

Lemma billing_groups_In all_users g :
  In g (billing_groups all_users) <->
  g <> ""%string /\ exists u, In u all_users /\ user_group u = Some g.
Proof.
  unfold billing_groups. split.
  - intros I. apply (Permutation_in _ (sorted_perm _)) in I.
    apply nodup_In in I. apply comprehension_In in I.
    destruct I as (u & I & E). unfold truthy_name in E.
    destruct (user_group u) as [s|] eqn:G; [|discriminate].
    destruct (String.eqb s "") eqn:Z; [discriminate|].
    injection E as ->. apply String.eqb_neq in Z.
    split; [exact Z|]. now exists u.
  - intros (N & u & I & E).
    apply (Permutation_in _ (Permutation_sym (sorted_perm _))).
    apply nodup_In. apply (comprehension_In_inv _ _ u); [exact I|].
    rewrite E. cbn. apply String.eqb_neq in N. now rewrite N.
Qed.

Lemma billing_groups_NoDup all_users : NoDup (billing_groups all_users).
Proof.
  unfold billing_groups.
  apply (Permutation_NoDup (Permutation_sym (sorted_perm _))).
  apply NoDup_nodup.
Qed.

(** X18. The institutions of the billing overview are the non-empty group
    names of the users, each listed once, in ascending order; every listed
    institution has at least one user, and the user counts of the rows add
    up to the number of users that have a group: each such user is counted
    in exactly one row. *)
Theorem X18_billing_counts (all_users : list User) :
  Sorted string_le (billing_groups all_users)
  /\ NoDup (billing_groups all_users)
  /\ (forall g,
      In g (billing_groups all_users) <->
      g <> ""%string /\ exists u, In u all_users /\ user_group u = Some g)
  /\ (forall g, In g (billing_groups all_users) ->
        (1 <= user_count all_users g)%Z)
  /\ int_sum (map (user_count all_users) (billing_groups all_users)) =
     Z.of_nat
       (List.length
          (filter (fun u => truthy_name (user_group u)) all_users)).
Proof.
  split; [apply sorted_Sorted|]. split; [apply billing_groups_NoDup|].
  split; [apply billing_groups_In|]. split.
  - intros g I. apply billing_groups_In in I.
    destruct I as (_ & u & I & E).
    induction all_users as [|v vs IH]; [destruct I|].
    rewrite user_count_cons.
    assert (P : (0 <= user_count vs g)%Z).
    { clear. induction vs as [|w ws IH]; [cbn; lia|].
      rewrite user_count_cons. destruct (in_group g w); lia. }
    destruct I as [->|I].
    + unfold in_group. rewrite E, String.eqb_refl. lia.
    + specialize (IH I). destruct (in_group g v); lia.
  - pose proof (billing_groups_NoDup all_users) as N.
    assert (C : forall u, In u all_users -> forall s,
                  user_group u = Some s -> s <> ""%string ->
                  In s (billing_groups all_users)).
    { intros u I s E Z. apply billing_groups_In. split; [exact Z|].
      now exists u. }
    assert (T : forall g, In g (billing_groups all_users) -> g <> ""%string)
      by (intros g I; now apply billing_groups_In in I).
    revert N C T. generalize (billing_groups all_users) as L.
    induction all_users as [|u us IH]; intros L N C T.
    + cbn [filter List.length]. clear.
      induction L as [|g L IH]; [reflexivity|].
      cbn [map]. now rewrite int_sum_cons, IH.
    + rewrite counts_cons, IH; [|exact N| |exact T];
        [|intros v I; apply C; now right].
      cbn [filter]. unfold truthy_name at 2.
      destruct (user_group u) as [s|] eqn:E.
      * destruct (String.eqb s "") eqn:Z; cbn [negb].
        -- apply String.eqb_eq in Z. subst s.
           rewrite indicator_absent; [lia|].
           intros g I. unfold in_group. rewrite E.
           apply String.eqb_neq. intros <-. now apply (T ""%string).
        -- apply String.eqb_neq in Z.
           rewrite (indicator_present u s L E N)
             by (apply (C u); [now left|exact E|exact Z]).
           cbn [List.length]. lia.
      * rewrite indicator_absent; [lia|].
        intros g _. unfold in_group. now rewrite E.
Qed.

Lemma X18_witness :
  (1 <= user_count [mkUser 1 (Some "North"%string); mkUser 2 None]
          "North")%Z.
Proof.
  apply (proj1 (proj2 (proj2 (proj2
           (X18_billing_counts
              [mkUser 1 (Some "North"%string); mkUser 2 None]))))).
  apply billing_groups_In. split; [discriminate|].
  exists (mkUser 1 (Some "North"%string)). split; [now left|reflexivity].
Defined.

(** ** The code's selections are the specification's *)

Lemma valid_grades_spec grades : valid_grades grades = non_null_grades grades.
Proof.
  unfold valid_grades. induction grades as [|r rest IH]; [reflexivity|].
  cbn. destruct (grade r); now rewrite IH.
Qed.

Lemma c_grades_spec grades c : c_grades grades c = category_subset c grades.
Proof.
  unfold c_grades, category_subset, records_of_category.
  induction grades as [|r rest IH]; [reflexivity|].
  cbn [comprehension filter]. unfold int_eq, is_of_category.
  destruct (category_id r) as [i|]; [|exact IH].
  destruct (Z.eqb i (id c)); [|exact IH].
  cbn [non_null_grades]. destruct (grade r); [f_equal|]; exact IH.
Qed.

Lemma p_grades_spec raw p : p_grades raw p = records_of_period p raw.
Proof.
  unfold p_grades, records_of_period. apply filter_ext. intros r.
  unfold int_eq, is_of_period. now destruct (period r).
Qed.

Lemma periods_spec sys : periods sys = year_periods sys.
Proof.
  unfold periods, year_periods, num_p.
  now destruct (String.eqb sys "semesters").
Qed.

Lemma non_null_grades_filter (records : list GradeRecord) :
  map Some (non_null_grades records) = map grade (filter has_grade records).
Proof.
  induction records as [|r rest IH]; [reflexivity|].
  cbn [non_null_grades filter]. unfold has_grade.
  destruct (grade r) eqn:E; cbn [map]; [|exact IH].
  now rewrite IH, E.
Qed.

Lemma map_Some_inj {A} (l l' : list A) : map Some l = map Some l' -> l = l'.
Proof.
  revert l'. induction l as [|x l IH]; intros [|y l']; cbn;
    try discriminate; [reflexivity|].
  intros [= -> H]. f_equal. now apply IH.
Qed.

Lemma has_data_subset grades c :
  has_data grades c <-> category_subset c grades <> [].
Proof.
  unfold has_data, category_subset, records_of_category. split.
  - intros (r & x & I & C & G).
    induction grades as [|r0 rest IH]; [destruct I|].
    cbn [filter]. destruct I as [->|I].
    + unfold is_of_category. rewrite C, Z.eqb_refl. cbn. now rewrite G.
    + destruct (is_of_category c r0); [|now apply IH].
      cbn. destruct (grade r0); [discriminate|now apply IH].
  - induction grades as [|r0 rest IH]; [now intros []|].
    cbn [filter]. intros N.
    destruct (is_of_category c r0) eqn:C.
    + cbn in N. destruct (grade r0) as [x|] eqn:G.
      * exists r0, x. split; [now left|]. split; [|exact G].
        unfold is_of_category in C.
        destruct (category_id r0); [|discriminate].
        apply Z.eqb_eq in C. now subst.
      * destruct (IH N) as (r & x & I & E). exists r, x.
        split; [now right|exact E].
    + destruct (IH N) as (r & x & I & E). exists r, x.
      split; [now right|exact E].
Qed.



Lemma category_average_spec grades c :
  category_average grades c = subset_average c grades.
Proof. unfold category_average, subset_average. now rewrite c_grades_spec. Qed.

Lemma graded_spec grades cats : graded grades cats = counted grades cats.
Proof.
  unfold graded, counted. apply filter_ext. intros c. unfold has_grades.
  now rewrite c_grades_spec.
Qed.

Lemma weighted_sum_spec grades cats :
  weighted_sum grades cats = subset_score grades cats.
Proof.
  unfold weighted_sum, subset_score. f_equal. apply map_ext. intros c.
  now rewrite c_grades_spec.
Qed.


Lemma counted_all grades cats :
  (forall c, In c cats -> has_data grades c) -> counted grades cats = cats.
Proof.
  intros H. rewrite <- graded_spec. apply graded_all. intros c I.
  rewrite c_grades_spec. now apply has_data_subset, H.
Qed.

Lemma averages_of_distinct_spec grades cats :
  NoDup (map name cats) ->
  averages_of grades cats =
  map (fun c => (name c, subset_average c grades)) cats.
Proof.
  intros N. rewrite averages_distinct by assumption.
  apply map_ext. intros c. now rewrite category_average_spec.
Qed.

(** C1. With weights that sum to 100 and every category having a record
    of its own with a non-null grade, the final score is the weighted mean
    of the category averages: the sum over the categories of the mean of
    the category's non-null grades times its weight, over 100; with
    distinct names the mapping gives each category that mean.  On Homework
    (40) with grades 8 and 6 and Exams (60) with grade 9 the averages are 7
    and 9 and the final score is 8.2; a null grade in Homework beside an 8
    leaves its average at 8 and gives 8.6. *)
Theorem C1_weighted_mean_of_category_averages :
  (forall grades cats,
      cats <> [] ->
      weight_total cats = 100%Z ->
      (forall c, In c cats -> has_data grades c) ->
      exists d,
        calculate_average_v3 grades cats =
        Ok (subset_score grades cats / of_Z 100, d)
        /\ (NoDup (map name cats) ->
            d = map (fun c =>
                       (name c,
                        Some (arithmetic_mean (category_subset c grades))))
                  cats))
  /\ calculate_average_v3 Scenario.full Scenario.categories =
     Ok (dec 82 10, [("Homework"%string, Some (of_Z 7));
                     ("Exams"%string, Some (of_Z 9))])
  /\ calculate_average_v3
       [Scenario.rec 8 1; null_in 1; Scenario.rec 9 2] Scenario.categories =
     Ok (dec 86 10, [("Homework"%string, Some (of_Z 8));
                     ("Exams"%string, Some (of_Z 9))]).
Proof.
  split; [|split; by_evaluation].
  intros grades cats N W G. exists (averages_of grades cats). split.
  - rewrite calculate_average_v3_eq, nonempty_eq by assumption.
    unfold weighted_final.
    rewrite graded_spec, weighted_sum_spec, (counted_all _ _ G), W.
    reflexivity.
  - intros D. rewrite averages_of_distinct_spec by assumption.
    apply map_ext_in. intros c I. f_equal. unfold subset_average.
    pose proof (proj1 (has_data_subset grades c) (G c I)) as S.
    now destruct (category_subset c grades).
Qed.

Lemma C1_witness :
  exists d,
    calculate_average_v3
      [Scenario.rec 8 1; null_in 1; Scenario.rec 9 2] Scenario.categories =
    Ok (subset_score [Scenario.rec 8 1; null_in 1; Scenario.rec 9 2]
          Scenario.categories / of_Z 100, d)
    /\ (NoDup (map name Scenario.categories) ->
        d = map (fun c =>
                   (name c,
                    Some (arithmetic_mean
                            (category_subset c
                               [Scenario.rec 8 1; null_in 1;
                                Scenario.rec 9 2]))))
              Scenario.categories).
Proof.
  apply (proj1 C1_weighted_mean_of_category_averages
           [Scenario.rec 8 1; null_in 1; Scenario.rec 9 2]
           Scenario.categories).
  - discriminate.
  - reflexivity.
  - intros c [<-|[<-|[]]].
    + exists (Scenario.rec 8 1), (of_Z 8). split; [now left|now split].
    + exists (Scenario.rec 9 2), (of_Z 9).
      split; [right; right; now left|now split].
Defined.



(** C3. Without categories the result is the plain arithmetic mean of the
    non-null grades, in the order of the records, and an empty mapping;
    when no grade is non-null, the grades list being possibly empty, it is
    0 and an empty mapping.  A null grade beside an 8 gives 8. *)
Theorem C3_fallback_without_categories :
  (forall grades values,
      map grade (filter has_grade grades) = map Some values ->
      calculate_average_v3 grades [] =
      Ok (match values with
          | [] => 0
          | _ :: _ => arithmetic_mean values
          end, []))
  /\ (forall grades,
      (forall g, In g grades -> grade g = None) ->
      calculate_average_v3 grades [] = Ok (0, []))
  /\ calculate_average_v3 [Scenario.rec 8 1; null_in 1] [] =
     Ok (of_Z 8, []).
Proof.
  assert (A : forall grades values,
             map grade (filter has_grade grades) = map Some values ->
             calculate_average_v3 grades [] =
             Ok (match values with
                 | [] => 0
                 | _ :: _ => arithmetic_mean values
                 end, [])).
  { intros grades values H. rewrite <- non_null_grades_filter in H.
    apply map_Some_inj in H. subst values.
    rewrite calculate_average_v3_eq. cbn [final_of averages_of fold_left].
    now rewrite valid_grades_spec. }
  split; [exact A|]. split; [|by_evaluation].
  intros grades H. apply (A grades []).
  induction grades as [|g grades IH]; [reflexivity|].
  cbn [filter]. unfold has_grade. rewrite (H g) by now left.
  apply IH. intros g' I. apply H. now right.
Qed.

Lemma C3_witness :
  calculate_average_v3 [Scenario.rec 8 1; null_in 1] [] =
  Ok (arithmetic_mean [of_Z 8], []).
Proof.
  apply (proj1 C3_fallback_without_categories
           [Scenario.rec 8 1; null_in 1] [of_Z 8]).
  reflexivity.
Defined.

Lemma returned_final_spec grades cats :
  final_of grades cats = returned_final grades cats.
Proof. unfold returned_final. now rewrite calculate_average_v3_eq. Qed.

Lemma year_finals_spec sys raw cats :
  period_finals sys raw cats = year_finals sys raw cats.
Proof.
  unfold period_finals, year_finals. rewrite periods_spec.
  rewrite (filter_ext (fun p => truthy (p_grades raw p))
             (fun p => truthy (records_of_period p raw)))
    by (intros p; now rewrite p_grades_spec).
  apply map_ext. intros p. now rewrite p_grades_spec, returned_final_spec.
Qed.

Lemma records_of_period_In raw p r :
  In r (records_of_period p raw) <-> In r raw /\ period r = Some p.
Proof.
  unfold records_of_period. rewrite filter_In. unfold is_of_period.
  destruct (period r) as [q|].
  - rewrite Z.eqb_eq. split; intros [I E]; (split; [exact I|congruence]).
  - split; intros [I E]; discriminate.
Qed.

Lemma records_of_period_none raw p :
  (forall r, In r raw -> period r <> Some p) -> records_of_period p raw = [].
Proof.
  intros H. destruct (records_of_period p raw) as [|r l] eqn:E;
    [reflexivity|].
  assert (I : In r (records_of_period p raw)) by (rewrite E; now left).
  apply records_of_period_In in I. destruct I as [I P].
  now destruct (H r I).
Qed.

Lemma records_of_period_some raw p :
  (exists r, In r raw /\ period r = Some p) ->
  truthy (records_of_period p raw) = true.
Proof.
  intros (r & I & P).
  assert (X : In r (records_of_period p raw))
    by now apply records_of_period_In.
  now destruct (records_of_period p raw).
Qed.

(** C6, as stated, fails on the gradebook cells: the mean 22/3 of the
    single period final is shown as 7.33. *)
Lemma C6_counterexample :
  ~ (forall sys raw cats,
        year_finals sys raw cats <> [] ->
        year_final_cell sys raw cats =
        Ok (arithmetic_mean (year_finals sys raw cats))).
Proof.
  intros H. specialize (H "semesters"%string thirds []).
  assert (E : year_finals "semesters" thirds [] = [dec 22 3]).
  { replace (year_finals "semesters" thirds [])
      with [returned_final thirds []] by reflexivity.
    replace (returned_final thirds []) with (dec 22 3)
      by (symmetry; by_evaluation).
    reflexivity. }
  rewrite E in H. specialize (H ltac:(discriminate)).
  apply (f_equal (fun r => match r with
                           | Ok s => this s
                           | ZeroDivisionError => 0%Q
                           end)) in H.
  vm_compute in H. discriminate.
Qed.

(** C6, amended.  The per-period finals are those of the periods of the
    year that have at least one grade record, each being the final score
    [calculate_average_v3] returns on the records whose period is that
    period; a period without records adds no term and does not count in
    the divisor.  The "Year Final" cell of the gradebooks is the arithmetic
    mean of these finals rounded to two decimals, and 0 when there is
    none; the progress tab keeps the mean as it is.  With two semesters, a
    first-semester final of 7 and no record in the second, the year final
    is 7; with 7 in the first semester and 3 in the second it is 5,
    whatever records have another period or none. *)
Theorem C6_year_final :
  (forall sys raw cats,
      year_final_cell sys raw cats =
      Ok (match year_finals sys raw cats with
          | [] => 0
          | _ :: _ => round2 (arithmetic_mean (year_finals sys raw cats))
          end)
      /\ progress_year_final sys raw cats =
         Ok (match year_finals sys raw cats with
             | [] => None
             | _ :: _ => Some (arithmetic_mean (year_finals sys raw cats))
             end))
  /\ (forall grades cats,
      exists d,
        calculate_average_v3 grades cats =
        Ok (returned_final grades cats, d))
  /\ (forall raw p r,
      In r (records_of_period p raw) <-> In r raw /\ period r = Some p)
  /\ (forall raw cats p_avgs p,
      (forall r, In r raw -> period r <> Some p) ->
      period_body raw cats p_avgs p = Ok p_avgs)
  /\ (forall raw cats p_avgs p,
      (exists r, In r raw /\ period r = Some p) ->
      period_body raw cats p_avgs p =
      Ok (p_avgs ++ [returned_final (records_of_period p raw) cats]))
  /\ (forall raw cats d,
      (exists r, In r raw /\ period r = Some 1%Z) ->
      (forall r, In r raw -> period r <> Some 2%Z) ->
      calculate_average_v3 (records_of_period 1 raw) cats =
      Ok (of_Z 7, d) ->
      year_final_cell "semesters" raw cats = Ok (of_Z 7)
      /\ progress_year_final "semesters" raw cats = Ok (Some (of_Z 7)))
  /\ year_final_cell "semesters"
       [in_period 7 1; without_period 0; in_period 3 2; in_period 10 3]
       [] = Ok (of_Z 5).
Proof.
  split; [|split; [|split; [|split; [|split; [|split]]]]].
  - intros sys raw cats.
    rewrite year_final_cell_eq, progress_year_final_eq, year_finals_spec.
    now split.
  - intros grades cats. exists (averages_of grades cats).
    now rewrite calculate_average_v3_eq, returned_final_spec.
  - apply records_of_period_In.
  - intros raw cats p_avgs p E. rewrite period_body_eq, p_grades_spec.
    now rewrite (records_of_period_none _ _ E).
  - intros raw cats p_avgs p N.
    rewrite period_body_eq, p_grades_spec, returned_final_spec.
    now rewrite (records_of_period_some _ _ N).
  - intros raw cats d N1 E2 F.
    assert (R : returned_final (records_of_period 1 raw) cats = of_Z 7)
      by (unfold returned_final; now rewrite F).
    assert (P : year_finals "semesters" raw cats = [of_Z 7]).
    { unfold year_finals.
      change (year_periods "semesters") with [1%Z; 2%Z]. cbn [filter].
      rewrite (records_of_period_some _ _ N1).
      rewrite (records_of_period_none _ _ E2). cbn [truthy map].
      now rewrite R. }
    rewrite year_final_cell_eq, progress_year_final_eq, year_finals_spec, P.
    split; [by_evaluation|].
    apply f_equal, f_equal. by_evaluation.
  - by_evaluation.
Qed.

Lemma C6_witness :
  year_final_cell "semesters"
    [in_period 7 1; without_period 0; in_period 10 3] [] = Ok (of_Z 7)
  /\ progress_year_final "semesters"
       [in_period 7 1; without_period 0; in_period 10 3] [] =
     Ok (Some (of_Z 7)).
Proof.
  apply (proj1 (proj2 (proj2 (proj2 (proj2 (proj2 C6_year_final)))))
           [in_period 7 1; without_period 0; in_period 10 3] [] []).
  - exists (in_period 7 1). split; [now left|reflexivity].
  - intros r [<-|[<-|[<-|[]]]]; discriminate.
  - by_evaluation.
Defined.

(** ** The mapping on doubles *)

Lemma double_len_cons {A} (x : A) (l : list A) :
  (Double.len (x :: l) =? 0)%Z = false.
Proof. apply Z.eqb_neq. unfold Double.len. cbn [List.length]. lia. Qed.

Lemma double_loop_body grades st cat :
  Double.loop_body grades st cat =
  Ok (match Double.category_average grades cat with
      | Some avg =>
          Double.mkState
            (Double.dict_set (Double.cat_averages st) (name cat) (Some avg))
            (Double.total_weight_used st + weight cat)%Z
            (PrimFloat.add (Double.calculated_score st)
               (PrimFloat.mul avg (Double.of_int (weight cat))))
      | None =>
          Double.mkState
            (Double.dict_set (Double.cat_averages st) (name cat) None)
            (Double.total_weight_used st) (Double.calculated_score st)
      end).
Proof.
  unfold Double.loop_body, Double.category_average.
  destruct (Double.c_grades grades cat) as [|x l]; [reflexivity|].
  cbn [truthy]. unfold Double.div. now rewrite double_len_cons.
Qed.

Lemma double_loop_mapping grades cats : forall st,
  exists st',
    for_each (Double.loop_body grades) cats st = Ok st'
    /\ Double.cat_averages st' =
       fold_left
         (fun d c =>
            Double.dict_set d (name c) (Double.category_average grades c))
         cats (Double.cat_averages st).
Proof.
  induction cats as [|c cats IH]; intros st.
  - exists st. now split.
  - cbn [for_each fold_left]. rewrite double_loop_body. cbn [bind].
    match goal with
    | |- context [for_each _ cats ?s] => destruct (IH s) as (st' & E & M)
    end.
    exists st'. split; [exact E|]. rewrite M. f_equal.
    now destruct (Double.category_average grades c).
Qed.

Lemma double_set_fresh (d : Double.dict) k v :
  ~ In k (map fst d) -> Double.dict_set d k v = d ++ [(k, v)].
Proof.
  induction d as [|[k0 v0] d IH]; cbn; [reflexivity|].
  intros H. destruct (String.eqb k0 k) eqn:E.
  - apply String.eqb_eq in E. tauto.
  - rewrite IH by tauto. reflexivity.
Qed.

Lemma double_mapping_distinct grades cats : forall d : Double.dict,
  NoDup (map fst d ++ map name cats) ->
  fold_left
    (fun d c =>
       Double.dict_set d (name c) (Double.category_average grades c))
    cats d =
  d ++ map (fun c => (name c, Double.category_average grades c)) cats.
Proof.
  induction cats as [|c cats IH]; intros d N.
  - cbn. now rewrite app_nil_r.
  - cbn [fold_left map]. cbn [map] in N.
    pose proof (NoDup_remove_2 _ _ _ N) as F.
    rewrite double_set_fresh
      by (intros I; apply F; apply in_or_app; now left).
    rewrite IH.
    + now rewrite <- app_assoc.
    + rewrite map_app. cbn [map fst]. rewrite <- app_assoc. exact N.
Qed.

Lemma double_outcome_fold grades cats :
  exists s,
    Double.calculate_average_v3 grades cats =
    Ok (s, fold_left
             (fun d c =>
                Double.dict_set d (name c)
                  (Double.category_average grades c))
             cats []).
Proof.
  unfold Double.calculate_average_v3.
  destruct cats as [|c0 cats]; cbn [truthy negb].
  - destruct (Double.valid_grades grades) as [|x l]; cbn [truthy].
    + now eexists.
    + unfold Double.div. rewrite double_len_cons. cbn [bind]. now eexists.
  - destruct (double_loop_mapping grades (c0 :: cats)
                (Double.mkState [] 0%Z (Double.of_int 0)))
      as (st & -> & M).
    cbn [bind]. rewrite M. cbn [Double.cat_averages].
    destruct (Z.gtb_spec (Double.total_weight_used st) 0).
    + unfold Double.div.
      replace (Double.total_weight_used st =? 0)%Z with false
        by (symmetry; apply Z.eqb_neq; lia).
      cbn [bind]. now eexists.
    + now eexists.
Qed.

Lemma double_outcome grades cats :
  NoDup (map name cats) ->
  exists s,
    Double.calculate_average_v3 grades cats =
    Ok (s, map (fun c => (name c, Double.category_average grades c)) cats).
Proof.
  intros N. destruct (double_outcome_fold grades cats) as (s & E).
  exists s. rewrite E.
  now rewrite (double_mapping_distinct grades cats []) by exact N.
Qed.

(** C8, as stated, fails in two ways.  For categories that share a name,
    the entry of the name is the one of the category that comes last.  And
    on doubles the final score depends on the order in which the
    categories are summed: grades 9.5 (weight 25), 7, 7, 9 (weight 35) and
    5.5, 7.5, 10 (weight 40) give 8.125 in one order and
    8.125000000000002 in another. *)
Lemma C8_counterexample :
  ~ (forall grades cats cats',
        Permutation cats cats' ->
        forall s d s' d',
          calculate_average_v3 grades cats = Ok (s, d) ->
          calculate_average_v3 grades cats' = Ok (s', d') ->
          s = s' /\ (forall n v, In (n, v) d <-> In (n, v) d'))
  /\ ~ (forall grades cats cats',
          Permutation cats cats' ->
          forall s d s' d',
            Double.calculate_average_v3 grades cats = Ok (s, d) ->
            Double.calculate_average_v3 grades cats' = Ok (s', d') ->
            s = s').
Proof.
  split.
  - intros H.
    assert (E1 : calculate_average_v3 [Scenario.rec 8 1] [Quiz1; Quiz2] =
                 Ok (of_Z 8, [("Quiz"%string, None)])) by by_evaluation.
    assert (E2 : calculate_average_v3 [Scenario.rec 8 1] [Quiz2; Quiz1] =
                 Ok (of_Z 8, [("Quiz"%string, Some (of_Z 8))]))
      by by_evaluation.
    destruct (H _ _ _ (perm_swap Quiz2 Quiz1 []) _ _ _ _ E1 E2) as [_ P].
    destruct (proj1 (P "Quiz"%string None)) as [X|[]]; [now left|].
    discriminate.
  - intros H.
    set (r1 := Double.calculate_average_v3 Double.grades_ABC
                 [Double.A; Double.B; Double.C]).
    set (r2 := Double.calculate_average_v3 Double.grades_ABC
                 [Double.A; Double.C; Double.B]).
    assert (E1 : r1 = Ok (Double.score_of r1, Double.mapping_of r1))
      by (vm_compute; reflexivity).
    assert (E2 : r2 = Ok (Double.score_of r2, Double.mapping_of r2))
      by (vm_compute; reflexivity).
    pose proof (H _ _ _ (perm_skip Double.A (perm_swap Double.C Double.B []))
                  _ _ _ _ E1 E2) as S.
    apply (f_equal (fun x => PrimFloat.ltb x (Double.score_of r2))) in S.
    vm_compute in S. discriminate.
Qed.

(** C8, amended.  When the names of the categories are pairwise distinct,
    reordering the categories gives a mapping with the same name-to-value
    pairs, listed in the order of the categories: each name with the mean
    of the category's non-null grades, or the no-data marker.  This holds
    on exact numbers and on doubles alike; the final score is left out. *)
Theorem C8_order_of_categories (cats cats' : list GradingCategory) :
  Permutation cats cats' ->
  NoDup (map name cats) ->
  (forall grades,
      exists s s' d d',
        calculate_average_v3 grades cats = Ok (s, d)
        /\ calculate_average_v3 grades cats' = Ok (s', d')
        /\ Permutation d d'
        /\ d = map (fun c => (name c, subset_average c grades)) cats
        /\ d' = map (fun c => (name c, subset_average c grades)) cats')
  /\ (forall grades,
      exists s s' d d',
        Double.calculate_average_v3 grades cats = Ok (s, d)
        /\ Double.calculate_average_v3 grades cats' = Ok (s', d')
        /\ Permutation d d'
        /\ d = map (fun c => (name c, Double.category_average grades c))
                 cats
        /\ d' = map (fun c => (name c, Double.category_average grades c))
                  cats').
Proof.
  intros P N.
  assert (N' : NoDup (map name cats')).
  { eapply Permutation_NoDup; [|exact N]. now apply Permutation_map. }
  split; intros grades.
  - exists (final_of grades cats), (final_of grades cats'),
      (averages_of grades cats), (averages_of grades cats').
    rewrite !calculate_average_v3_eq.
    rewrite !averages_of_distinct_spec by assumption.
    repeat split. now apply Permutation_map.
  - destruct (double_outcome grades cats N) as (s & E).
    destruct (double_outcome grades cats' N') as (s' & E').
    exists s, s'. do 2 eexists.
    split; [exact E|]. split; [exact E'|].
    split; [now apply Permutation_map|now split].
Qed.

Lemma C8_witness :
  (forall grades,
      exists s s' d d',
        calculate_average_v3 grades Scenario.categories = Ok (s, d)
        /\ calculate_average_v3 grades (rev Scenario.categories)
           = Ok (s', d')
        /\ Permutation d d'
        /\ d = map (fun c => (name c, subset_average c grades))
                 Scenario.categories
        /\ d' = map (fun c => (name c, subset_average c grades))
                  (rev Scenario.categories))
  /\ (forall grades,
      exists s s' d d',
        Double.calculate_average_v3 grades Scenario.categories = Ok (s, d)
        /\ Double.calculate_average_v3 grades (rev Scenario.categories)
           = Ok (s', d')
        /\ Permutation d d'
        /\ d = map (fun c => (name c, Double.category_average grades c))
                 Scenario.categories
        /\ d' = map (fun c => (name c, Double.category_average grades c))
                  (rev Scenario.categories)).
Proof.
  apply (C8_order_of_categories Scenario.categories
           (rev Scenario.categories)).
  - apply Permutation_rev.
  - repeat constructor; cbn; intuition discriminate.
Defined.

Lemma same_ids_and_names (cats cats' : list GradingCategory) :
  map id cats = map id cats' ->
  map name cats = map name cats' ->
  Forall2 (fun c c' => id c = id c' /\ name c = name c') cats cats'.
Proof.
  revert cats'. induction cats as [|c cats IH]; intros [|c' cats'];
    cbn; try discriminate; [constructor|].
  intros [= I Is] [= N Ns]. constructor; [now split|now apply IH].
Qed.

Lemma mapping_same grades cats cats' :
  Forall2 (fun c c' => id c = id c' /\ name c = name c') cats cats' ->
  forall d : dict,
    fold_left (fun d c => dict_set d (name c) (category_average grades c))
      cats d =
    fold_left (fun d c => dict_set d (name c) (category_average grades c))
      cats' d.
Proof.
  induction 1 as [|c c' cats cats' [I N] F IH]; intros d; [reflexivity|].
  cbn [fold_left]. rewrite N.
  replace (category_average grades c') with (category_average grades c);
    [apply IH|].
  unfold category_average, c_grades. now rewrite I.
Qed.

Lemma averages_of_same grades cats cats' :
  Forall2 (fun c c' => id c = id c' /\ name c = name c') cats cats' ->
  averages_of grades cats = averages_of grades cats'.
Proof. intros F. unfold averages_of. now apply mapping_same. Qed.

Lemma double_mapping_same grades cats cats' :
  Forall2 (fun c c' => id c = id c' /\ name c = name c') cats cats' ->
  forall d : Double.dict,
    fold_left
      (fun d c =>
         Double.dict_set d (name c) (Double.category_average grades c))
      cats d =
    fold_left
      (fun d c =>
         Double.dict_set d (name c) (Double.category_average grades c))
      cats' d.
Proof.
  induction 1 as [|c c' cats cats' [I N] F IH]; intros d; [reflexivity|].
  cbn [fold_left]. rewrite N.
  replace (Double.category_average grades c')
    with (Double.category_average grades c); [apply IH|].
  unfold Double.category_average, Double.c_grades. now rewrite I.
Qed.

(** X3. The category averages never depend on the weights: two lists of
    categories with the same ids and names, in the same order, give the
    same mapping whatever their weights, on exact numbers and on doubles
    alike. *)
Theorem X3_averages_ignore_weights (cats cats' : list GradingCategory) :
  map id cats = map id cats' ->
  map name cats = map name cats' ->
  (forall grades,
      exists s s' d,
        calculate_average_v3 grades cats = Ok (s, d)
        /\ calculate_average_v3 grades cats' = Ok (s', d))
  /\ (forall grades,
      exists s s' d,
        Double.calculate_average_v3 grades cats = Ok (s, d)
        /\ Double.calculate_average_v3 grades cats' = Ok (s', d)).
Proof.
  intros I N. pose proof (same_ids_and_names cats cats' I N) as F.
  split; intros grades.
  - exists (final_of grades cats), (final_of grades cats'),
      (averages_of grades cats).
    rewrite !calculate_average_v3_eq.
    now rewrite (averages_of_same grades cats cats' F).
  - destruct (double_outcome_fold grades cats) as (s & E).
    destruct (double_outcome_fold grades cats') as (s' & E').
    exists s, s'. eexists. split; [exact E|].
    now rewrite (double_mapping_same grades cats cats' F).
Qed.

Lemma X3_witness :
  (forall grades,
      exists s s' d,
        calculate_average_v3 grades Scenario.categories = Ok (s, d)
        /\ calculate_average_v3 grades malformed = Ok (s', d))
  /\ (forall grades,
      exists s s' d,
        Double.calculate_average_v3 grades Scenario.categories = Ok (s, d)
        /\ Double.calculate_average_v3 grades malformed = Ok (s', d)).
Proof.
  apply (X3_averages_ignore_weights Scenario.categories malformed);
    reflexivity.
Defined.
